(** * FTE baseload calculation engine (src/model.py, src/config.py)

    A shallow embedding of the single-scenario pipeline engine and the
    properties its specification states about it.

    Modelling choices.

    - Numbers.  The engine computes on Python floats.  Every definition below
      is written once, over an arithmetic interface [PyNum], and is read at
      two instances: IEEE binary64 (the kernel's primitive floats, which is
      what the interpreter runs) and exact rationals [Q].  Results that only
      depend on the shape of the computation are proved for every instance;
      results that need the laws of arithmetic are proved on [Q], and the
      concrete scenario is evaluated on both.  The pandas reductions used by
      the annual summary (grouped sums, mean) use compensated summation, so
      the binary64 instance is bit-faithful for the monthly table and the
      scalars computed before it, not for the annual table.
    - Dates.  Every timestamp of the engine is the first day of a month; a
      timestamp is the month number [12 * year + (month - 1)] in [Z], and
      [pd.DateOffset(months=k)] is the addition of [k].  The finite range of
      pandas timestamps (years 1678 to 2261) is not modelled: for a year
      outside it the interpreter raises where the embedding returns, so a
      property of the results is stated of the runs that return.
    - Series.  A [pd.Series] is the list of its (label, value) items in index
      order.
    - Dictionaries are finite maps ([gmap]); the [records] list that
      [_run_archetype] appends to is threaded explicitly.
    - Exceptions.  A computation that can raise returns a [result].
    - State.  What persists between two calls of the engine is the
      configuration object; for the statements about successive calls the
      engine is written a second time as a computation on a store that
      holds it, and shown to compute the same function. *)

From Stdlib Require Import ZArith QArith Qround Bool Lia Sorted.
From Stdlib Require Import Floats.PrimFloat Numbers.Cyclic.Int63.Uint63.
From stdpp Require Import gmap strings list.

Set Warnings "-inexact-float".
Set Default Proof Using "Type".

(** ** Exceptions *)

Inductive exn : Type :=
  | ZeroDivisionError
  | ValueError.

Inductive result (A : Type) : Type :=
  | Ok (a : A)
  | Raise (e : exn).
Arguments Ok {A} a.
Arguments Raise {A} e.

#[global] Instance result_ret : MRet result := λ A a, Ok a.
#[global] Instance result_bind : MBind result := λ A B f m,
  match m with
  | Ok a => f a
  | Raise e => Raise e
  end.

#[global] Instance result_fmap : FMap result := λ A B f m,
  match m with
  | Ok a => Ok (f a)
  | Raise e => Raise e
  end.

(** [for x in l: s = body(s, x)], where the body can raise. *)
Fixpoint for_each {A S : Type} (l : list A) (body : S → A → result S) (s : S)
    : result S :=
  match l with
  | [] => Ok s
  | x :: l' => s' ← body s x; for_each l' body s'
  end.

(** Python's [range(lo, hi)] and [pd.date_range(lo, hi, freq="MS")]. *)
Definition range (lo hi : Z) : list Z := seqZ lo (hi - lo).
Definition date_range (start_date end_date : Z) : list Z :=
  range start_date (end_date + 1).

(** The month number of the first day of month [m] of year [y]. *)
Definition first_of_month (y m : Z) : Z := (12 * y + (m - 1))%Z.

(** [pd.Timestamp(f"{y}-{m:02d}-01")]: the month field must be a month. *)
Definition Timestamp (y m : Z) : result Z :=
  if ((1 <=? m) && (m <=? 12))%Z then Ok (first_of_month y m)
  else Raise ValueError.

(** [dt.year] of a month number. *)
Definition year_of (dt : Z) : Z := (dt / 12)%Z.

(** ** The arithmetic interface *)

Class PyNum (num : Type) : Type := {
  fzero : num;
  fone : num;
  fadd : num → num → num;
  fsub : num → num → num;
  fmul : num → num → num;
  fdiv : num → num → num;
  flt : num → num → bool;
  fle : num → num → bool;
  feq : num → num → bool;
  of_int : Z → num;
  (** the literals [1e-9] and [0.01] of model.py *)
  lit_1e_9 : num;
  lit_0_01 : num;
  (** [round(x, 1)] *)
  round1 : num → num;
}.

Declare Scope py_scope.
Delimit Scope py_scope with py.
Infix "+" := fadd : py_scope.
Infix "-" := fsub : py_scope.
Infix "*" := fmul : py_scope.
Infix "/" := fdiv : py_scope.
Infix "<?" := flt : py_scope.
Infix "<=?" := fle : py_scope.
Notation "x >? y" := (flt y x) (only parsing) : py_scope.

(** ** config.py *)

Record StageParams (num : Type) : Type := {
  duration_months : Z;
  cost_millions : num;
  fte_research : num;
  fte_developer : num;
}.
Arguments duration_months {num} _.
Arguments cost_millions {num} _.
Arguments fte_research {num} _.
Arguments fte_developer {num} _.

Record Archetype (num : Type) : Type := {
  name : string;
  portfolio_share : num;
  stages : gmap string (StageParams num);
}.
Arguments name {num} _.
Arguments portfolio_share {num} _.
Arguments stages {num} _.

Record ModelConfig (num : Type) : Type := {
  total_budget_m : num;
  overhead_pct : num;
  start_year : Z;
  end_year : Z;
  pipeline_stages : list string;
  stage_mix : gmap string num;
  stage_conversion_rates : gmap string num;
  intake_spread_months : Z;
  utilization_rate : num;
  ramp_months : Z;
  archetypes : list (Archetype num);
}.
Arguments total_budget_m {num} _.
Arguments overhead_pct {num} _.
Arguments start_year {num} _.
Arguments end_year {num} _.
Arguments pipeline_stages {num} _.
Arguments stage_mix {num} _.
Arguments stage_conversion_rates {num} _.
Arguments intake_spread_months {num} _.
Arguments utilization_rate {num} _.
Arguments ramp_months {num} _.
Arguments archetypes {num} _.

(** One row of the monthly table (the dict appended to [records]). *)
Record MonthlyRecord (num : Type) : Type := {
  rec_month : Z;
  rec_year : Z;
  rec_archetype : string;
  rec_stage : string;
  effective_projects : num;
  rec_fte_research : num;
  rec_fte_developer : num;
  rec_fte_total : num;
}.
Arguments rec_month {num} _.
Arguments rec_year {num} _.
Arguments rec_archetype {num} _.
Arguments rec_stage {num} _.
Arguments effective_projects {num} _.
Arguments rec_fte_research {num} _.
Arguments rec_fte_developer {num} _.
Arguments rec_fte_total {num} _.

(** One row of the annual summary. *)
Record AnnualRow (num : Type) : Type := {
  Year : Z;
  Avg_monthly_FTE : num;
  Min_monthly_FTE : num;
  Max_monthly_FTE : num;
  Avg_Research_FTE : num;
  Avg_Developer_FTE : num;
}.
Arguments Year {num} _.
Arguments Avg_monthly_FTE {num} _.
Arguments Min_monthly_FTE {num} _.
Arguments Max_monthly_FTE {num} _.
Arguments Avg_Research_FTE {num} _.
Arguments Avg_Developer_FTE {num} _.

Record ModelResult (num : Type) : Type := {
  monthly : list (MonthlyRecord num);
  annual_summary : list (AnnualRow num);
  steady_state_avg : num;
  steady_state_min_month : num;
  steady_state_max_month : num;
  projects_per_year : num;
}.
Arguments monthly {num} _.
Arguments annual_summary {num} _.
Arguments steady_state_avg {num} _.
Arguments steady_state_min_month {num} _.
Arguments steady_state_max_month {num} _.
Arguments projects_per_year {num} _.

(** ** model.py *)

(** A [pd.Series] of floats indexed by months. *)
Abbreviation Series num := (list (Z * num)) (only parsing).

Section Engine.
Context {num : Type} `{PyNum num}.
Local Open Scope py_scope.

(** Python's [max(a, b)] and [min(a, b)] on floats: the first argument is
    kept unless the second is strictly larger (smaller). *)
Definition fmax (a b : num) : num := if b >? a then b else a.
Definition fmin (a b : num) : num := if b <? a then b else a.

(** [a / b] on Python floats. *)
Definition truediv (a b : num) : result num :=
  if feq b fzero then Raise ZeroDivisionError else Ok (a / b).

(** *** Series *)

(** [pd.Series(v, index=idx)] *)
Definition new_series (v : num) (idx : list Z) : Series num :=
  map (λ m, (m, v)) idx.

(** [s.index] *)
Definition index (s : Series num) : list Z := map fst s.

(** [m in idx] *)
Definition contains (idx : list Z) (m : Z) : bool :=
  existsb (Z.eqb m) idx.

(** [s.loc[m]] for a label of the index (labels are unique: every index of
    the engine is a [date_range]); [fill] stands for a missing label. *)
Definition loc_or (fill : num) (s : Series num) (m : Z) : num :=
  match List.find (λ p, (fst p =? m)%Z) s with
  | Some p => snd p
  | None => fill
  end.
Definition loc (s : Series num) (m : Z) : num := loc_or fzero s m.

(** [s.loc[m] += x] *)
Definition loc_add (s : Series num) (m : Z) (x : num) : Series num :=
  map (λ p, if (fst p =? m)%Z then (fst p, snd p + x) else p) s.

(** [s.loc[(s.index >= lo) & (s.index < hi)] += x] *)
Definition mask_add (s : Series num) (lo hi : Z) (x : num) : Series num :=
  map (λ p, if ((lo <=? fst p) && (fst p <? hi))%Z
            then (fst p, snd p + x) else p) s.

(** [s * c] *)
Definition scale (s : Series num) (c : num) : Series num :=
  map (λ p, (fst p, snd p * c)) s.

(** [a.add(b, fill_value=0.0)], for [b] indexed within the index of [a]
    (in the engine both are indexed by [idx]). *)
Definition series_add (a b : Series num) : Series num :=
  map (λ p, (fst p, snd p + loc_or fzero b (fst p))) a.

Definition _available_budget (cfg : ModelConfig num) : num :=
  total_budget_m cfg * (fone - overhead_pct cfg).

(** *** Cost calculation *)

(** [_expected_cost_from_stage] on the suffix [stages[start_idx:]]: the
    recursive call moves to [start_idx + 1], that is to the tail. *)
Fixpoint expected_cost_suffix (arch : Archetype num)
    (conv_rates : gmap string num) (suffix : list string) : num :=
  match suffix with
  | [] => fzero
  | sname :: rest =>
      match stages arch !! sname with
      | None => fzero
      | Some sp =>
          let cost := cost_millions sp in
          match rest with
          | [] => cost
          | _ :: _ =>
              let conv := default fzero (conv_rates !! sname) in
              if conv >? fzero
              then cost + conv * expected_cost_suffix arch conv_rates rest
              else cost
          end
      end
  end.

Definition _expected_cost_from_stage (arch : Archetype num)
    (stages : list string) (conv_rates : gmap string num) (start_idx : nat)
    : num :=
  expected_cost_suffix arch conv_rates (drop start_idx stages).

(** [enumerate(l)] *)
Definition enumerate {A : Type} (l : list A) : list (nat * A) :=
  imap (λ i x, (i, x)) l.

Definition _weighted_cost_per_project (cfg : ModelConfig num) : num :=
  let stages_ := pipeline_stages cfg in
  fold_left (λ total arch,
    let arch_cost :=
      fold_left (λ arch_cost '(i, sname),
        let mix := default fzero (stage_mix cfg !! sname) in
        if (mix >? fzero) && bool_decide (is_Some (stages arch !! sname))
        then arch_cost + mix * _expected_cost_from_stage
                                 arch stages_ (stage_conversion_rates cfg) i
        else arch_cost) (enumerate stages_) fzero in
    total + portfolio_share arch * arch_cost) (archetypes cfg) fzero.

Definition _projects_per_year (cfg : ModelConfig num) : result num :=
  let budget := _available_budget cfg in
  let wc := _weighted_cost_per_project cfg in
  if wc <=? fzero then Ok fzero
  else truediv budget wc.

(** *** Active stock (with optional ramp) *)

(** [min(1.0, (m + 1) / ramp_months)] *)
Definition ramp_factor (m ramp_months : Z) : num :=
  fmin fone (of_int (m + 1) / of_int ramp_months).

Definition _active_stock (starts : Series num) (duration : Z) (idx : list Z)
    (ramp_months : Z) : Series num :=
  let active := new_series fzero idx in
  if (duration <=? 0)%Z then active
  else if (ramp_months <=? 0)%Z then
    fold_left (λ active '(dt, n),
      if n <? lit_1e_9 then active
      else
        let end_dt := (dt + duration)%Z in
        mask_add active dt end_dt n) starts active
  else
    fold_left (λ active '(dt, n),
      if n <? lit_1e_9 then active
      else
        fold_left (λ active m,
          let m_dt := (dt + m)%Z in
          if contains (index active) m_dt then
            let factor := ramp_factor m ramp_months in
            loc_add active m_dt (n * factor)
          else active) (range 0 duration) active) starts active.

(** *** Pipeline runner (N-stage, per-archetype) *)

(** Lines 133-137: the direct intake, [monthly_n] in each of the first
    [intake_spread_months] months of every intake year. *)
Definition direct_starts (cfg : ModelConfig num) (starts : Series num)
    (monthly_n : num) : result (Series num) :=
  for_each (range (start_year cfg) (end_year cfg + 1)) (λ starts y,
    for_each (range 1 (intake_spread_months cfg + 1)) (λ starts m,
      ts ← Timestamp y m;
      Ok (if contains (index starts) ts then loc_add starts ts monthly_n
          else starts)) starts) starts.

(** Lines 139-143: the converted inflow from the previous stage. *)
Definition add_converted (cfg : ModelConfig num) (i : nat)
    (prev_completions : option (Series num)) (starts : Series num)
    : Series num :=
  match prev_completions with
  | Some pc =>
      if bool_decide (0 < i)%nat then
        match pipeline_stages cfg !! (i - 1)%nat with
        | Some prev_sname =>
            let conv :=
              default fzero (stage_conversion_rates cfg !! prev_sname) in
            if conv >? fzero then series_add starts (scale pc conv)
            else starts
        | None => starts
        end
      else starts
  | None => starts
  end.

(** Lines 128-143: the start series of stage [sname].  The divisor
    [max(intake_spread_months, 1)] is at least 1. *)
Definition stage_starts (cfg : ModelConfig num) (arch_projects : num)
    (idx : list Z) (i : nat) (sname : string)
    (prev_completions : option (Series num)) : result (Series num) :=
  let starts := new_series fzero idx in
  let direct_n := arch_projects * default fzero (stage_mix cfg !! sname) in
  starts ←
    (if direct_n >? fzero then
       let monthly_n :=
         direct_n / of_int (Z.max (intake_spread_months cfg) 1) in
       direct_starts cfg starts monthly_n
     else Ok starts);
  Ok (add_converted cfg i prev_completions starts).

(** Lines 147-153: the completions of a stage, [dur] months after each
    start. *)
Definition stage_completions (starts : Series num) (dur : Z) (idx : list Z)
    : Series num :=
  fold_left (λ this_completions '(dt, n),
    if n <? lit_1e_9 then this_completions
    else
      let comp_dt := (dt + dur)%Z in
      if contains (index this_completions) comp_dt
      then loc_add this_completions comp_dt n
      else this_completions) starts (new_series fzero idx).

(** Lines 156-169: one record per month of non-negligible activity.  The
    divisor [utilization] is at least 0.01. *)
Definition emit_records (arch : Archetype num) (sname : string)
    (sp : StageParams num) (utilization : num) (active : Series num)
    (idx : list Z) (records : list (MonthlyRecord num))
    : list (MonthlyRecord num) :=
  let fte_r := fte_research sp in
  let fte_d := fte_developer sp in
  fold_left (λ records dt,
    let n := loc active dt in
    if n <? lit_1e_9 then records
    else records ++ [ {|
      rec_month := dt;
      rec_year := year_of dt;
      rec_archetype := name arch;
      rec_stage := sname;
      effective_projects := n;
      rec_fte_research := n * fte_r / utilization;
      rec_fte_developer := n * fte_d / utilization;
      rec_fte_total := n * (fte_r + fte_d) / utilization |} ]) idx records.

(** The body of the loop over the stages; the state is
    [(prev_completions, records)]. *)
Definition run_stage (cfg : ModelConfig num) (arch : Archetype num)
    (arch_projects : num) (idx : list Z) (utilization : num)
    (st : option (Series num) * list (MonthlyRecord num)) (ix : nat * string)
    : result (option (Series num) * list (MonthlyRecord num)) :=
  let '(prev_completions, records) := st in
  let '(i, sname) := ix in
  match stages arch !! sname with
  | None => Ok (None, records)
  | Some sp =>
      let dur := duration_months sp in
      starts ← stage_starts cfg arch_projects idx i sname prev_completions;
      let active := _active_stock starts dur idx (ramp_months cfg) in
      let this_completions := stage_completions starts dur idx in
      Ok (Some this_completions,
          emit_records arch sname sp utilization active idx records)
  end.

Definition _run_archetype (cfg : ModelConfig num) (arch : Archetype num)
    (arch_projects : num) (idx : list Z) (utilization : num)
    (records : list (MonthlyRecord num)) : result (list (MonthlyRecord num)) :=
  st ← for_each (enumerate (pipeline_stages cfg))
         (run_stage cfg arch arch_projects idx utilization) (None, records);
  Ok (snd st).

(** *** Public API *)

(** The dict returned by [run]. *)
Record RunOutput : Type := {
  run_monthly : list (MonthlyRecord num);
  run_projects_per_year : num;
}.

(** Lines 179-186: the longest total duration of an archetype, summed over
    the items of its [stages] dict that are stages of the pipeline. *)
Definition tail_months_of (cfg : ModelConfig num) : Z :=
  fold_left (λ tail_months a,
    let arch_dur :=
      map_fold (λ sn sp acc,
        if bool_decide (sn ∈ pipeline_stages cfg)
        then (acc + duration_months sp)%Z else acc) 0%Z (stages a) in
    Z.max tail_months arch_dur) (archetypes cfg) 0%Z.

(** Lines 188-190: the month index of a run. *)
Definition month_index (cfg : ModelConfig num) : result (list Z) :=
  start_date ← Timestamp (start_year cfg) 1;
  dec ← Timestamp (end_year cfg) 12;
  let end_date := (dec + tail_months_of cfg)%Z in
  Ok (date_range start_date end_date).

Definition run (cfg : ModelConfig num) : result RunOutput :=
  total_proj ← _projects_per_year cfg;
  idx ← month_index cfg;
  let utilization := fmax (utilization_rate cfg) lit_0_01 in
  records ← for_each (archetypes cfg) (λ records arch,
    let arch_projects := total_proj * portfolio_share arch in
    _run_archetype cfg arch arch_projects idx utilization records) [];
  Ok {| run_monthly := records; run_projects_per_year := total_proj |}.

(** [df.groupby("month").agg(total=sum, research=sum, developer=sum)]: one
    entry per month present, in increasing order of the month; [group_add]
    puts one record into the table of groups, as the first of its month or
    added to the sums of its month. *)
Fixpoint group_add (k : Z) (v : num * num * num)
    (groups : list (Z * (num * num * num))) : list (Z * (num * num * num)) :=
  match groups with
  | [] => [(k, v)]
  | (k', v') :: rest =>
      if (k <? k')%Z then (k, v) :: groups
      else if (k =? k')%Z then
        let '(t, r, d) := v in
        let '(t', r', d') := v' in
        (k', (t' + t, r' + r, d' + d)) :: rest
      else (k', v') :: group_add k v rest
  end.

Definition groupby_month (data : list (MonthlyRecord num))
    : list (Z * (num * num * num)) :=
  fold_left (λ groups r,
    group_add (rec_month r)
      (rec_fte_total r, rec_fte_research r, rec_fte_developer r) groups)
    data [].

(** [Series.mean()], [Series.min()] and [Series.max()] of a column. *)
Definition mean (col : list num) : num :=
  fold_left fadd col fzero / of_int (Z.of_nat (length col)).
Definition col_min (col : list num) : num :=
  match col with
  | [] => fzero
  | x :: rest => fold_left fmin rest x
  end.
Definition col_max (col : list num) : num :=
  match col with
  | [] => fzero
  | x :: rest => fold_left fmax rest x
  end.

Definition col_total (g : list (Z * (num * num * num))) : list num :=
  map (λ e, e.2.1.1) g.
Definition col_research (g : list (Z * (num * num * num))) : list num :=
  map (λ e, e.2.1.2) g.
Definition col_developer (g : list (Z * (num * num * num))) : list num :=
  map (λ e, e.2.2) g.

(** [monthly[monthly["year"] == yr]] *)
Definition of_year (monthly_ : list (MonthlyRecord num)) (yr : Z)
    : list (MonthlyRecord num) :=
  List.filter (λ r, (rec_year r =? yr)%Z) monthly_.

(** Lines 233-258: the row appended for the year [yr]. *)
Definition annual_row (monthly_ : list (MonthlyRecord num)) (yr : Z)
    : AnnualRow num :=
  let yr_data := of_year monthly_ yr in
  match yr_data with
  | [] => {| Year := yr;
             Avg_monthly_FTE := fzero;
             Min_monthly_FTE := fzero;
             Max_monthly_FTE := fzero;
             Avg_Research_FTE := fzero;
             Avg_Developer_FTE := fzero |}
  | _ :: _ =>
      let monthly_totals := groupby_month yr_data in
      {| Year := yr;
         Avg_monthly_FTE := round1 (mean (col_total monthly_totals));
         Min_monthly_FTE := round1 (col_min (col_total monthly_totals));
         Max_monthly_FTE := round1 (col_max (col_total monthly_totals));
         Avg_Research_FTE := round1 (mean (col_research monthly_totals));
         Avg_Developer_FTE := round1 (mean (col_developer monthly_totals)) |}
  end.

Definition _build_annual_summary (monthly_ : list (MonthlyRecord num))
    (cfg : ModelConfig num) : list (AnnualRow num) :=
  let rows := [] in
  match monthly_ with
  | [] => rows
  | _ :: _ =>
      fold_left (λ rows yr, rows ++ [annual_row monthly_ yr])
        (range (start_year cfg) (end_year cfg + 1)) rows
  end.

(** (avg, min_month, max_month) FTE for the last intake year. *)
Definition _steady_state (monthly_ : list (MonthlyRecord num))
    (cfg : ModelConfig num) : num * num * num :=
  match monthly_ with
  | [] => (fzero, fzero, fzero)
  | _ :: _ =>
      let last_year := of_year monthly_ (end_year cfg) in
      let last_year :=
        match last_year with
        | [] => of_year monthly_ (end_year cfg - 1)
        | _ :: _ => last_year
        end in
      match last_year with
      | [] => (fzero, fzero, fzero)
      | _ :: _ =>
          let monthly_totals := col_total (groupby_month last_year) in
          (mean monthly_totals, col_min monthly_totals,
           col_max monthly_totals)
      end
  end.

Definition run_model (cfg : ModelConfig num) : result (ModelResult num) :=
  res ← run cfg;
  let monthly_ := run_monthly res in
  let annual := _build_annual_summary monthly_ cfg in
  let '(ss_avg, ss_min, ss_max) := _steady_state monthly_ cfg in
  Ok {| monthly := monthly_;
        annual_summary := annual;
        steady_state_avg := ss_avg;
        steady_state_min_month := ss_min;
        steady_state_max_month := ss_max;
        projects_per_year := run_projects_per_year res |}.

End Engine.

Arguments RunOutput num : clear implicits.

(** ** Exact arithmetic *)

Definition Qltb (a b : Q) : bool := negb (Qle_bool b a).

(** Rounding to the nearest integer, ties to the even one. *)
Definition round_half_even (q : Q) : Z :=
  let f := Qfloor q in
  match (q - inject_Z f ?= 1 # 2)%Q with
  | Lt => f
  | Gt => (f + 1)%Z
  | Eq => if Z.even f then f else (f + 1)%Z
  end.

Definition Qround1 (q : Q) : Q :=
  (inject_Z (round_half_even (q * 10)) / 10)%Q.

#[global] Instance Q_num : PyNum Q := {|
  fzero := 0%Q;
  fone := 1%Q;
  fadd := Qplus;
  fsub := Qminus;
  fmul := Qmult;
  fdiv := Qdiv;
  flt := Qltb;
  fle := Qle_bool;
  feq := Qeq_bool;
  of_int := inject_Z;
  lit_1e_9 := (1 # 1000000000)%Q;
  lit_0_01 := (1 # 100)%Q;
  round1 := Qround1;
|}.

(** ** IEEE binary64 *)

(** [float(z)] for an integer of magnitude below 2^63. *)
Definition float_of_Z (z : Z) : float :=
  match z with
  | Z0 => PrimFloat.zero
  | Zpos _ => PrimFloat.of_uint63 (Uint63.of_Z z)
  | Zneg _ => PrimFloat.opp (PrimFloat.of_uint63 (Uint63.of_Z (- z)))
  end.

(** Rounding to one decimal as numpy does it: scale, round to the nearest
    integer (ties to even, by adding and removing 2^52), unscale. *)
Definition float_rint (x : float) : float :=
  let big := 4503599627370496%float in
  if PrimFloat.ltb (PrimFloat.abs x) big then
    if PrimFloat.ltb x PrimFloat.zero
    then PrimFloat.add (PrimFloat.sub x big) big
    else PrimFloat.sub (PrimFloat.add x big) big
  else x.

Definition float_round1 (x : float) : float :=
  PrimFloat.div (float_rint (PrimFloat.mul x 10%float)) 10%float.

#[global] Instance float_num : PyNum float := {|
  fzero := PrimFloat.zero;
  fone := PrimFloat.one;
  fadd := PrimFloat.add;
  fsub := PrimFloat.sub;
  fmul := PrimFloat.mul;
  fdiv := PrimFloat.div;
  flt := PrimFloat.ltb;
  fle := PrimFloat.leb;
  feq := PrimFloat.eqb;
  of_int := float_of_Z;
  lit_1e_9 := 1e-9%float;
  lit_0_01 := 0.01%float;
  round1 := float_round1;
|}.

(** ** The scenario of the specification *)

Module Scenario.
Section Scenario.
Context {num : Type} `{PyNum num}.
(** The literals 0.2, 0.8 and 0.5 of the scenario at the instance. *)
Variables (c0_2 c0_8 c0_5 : num).

Definition early : StageParams num :=
  {| duration_months := 6; cost_millions := of_int 5;
     fte_research := fone; fte_developer := fzero |}.

Definition late : StageParams num :=
  {| duration_months := 6; cost_millions := of_int 10;
     fte_research := fzero; fte_developer := fone |}.

Definition archetype : Archetype num := {|
  name := "A";
  portfolio_share := fone;
  stages := <[ "Early" := early ]> (<[ "Late" := late ]> ∅);
|}.

Definition config : ModelConfig num := {|
  total_budget_m := of_int 100;
  overhead_pct := fzero;
  start_year := 2026;
  end_year := 2026;
  pipeline_stages := ["Early"; "Late"];
  stage_mix := <[ "Early" := c0_2 ]> (<[ "Late" := c0_8 ]> ∅);
  stage_conversion_rates := <[ "Early" := c0_5 ]> ∅;
  intake_spread_months := 1;
  utilization_rate := fone;
  ramp_months := 0;
  archetypes := [archetype];
|}.

(** The scenario with a middle stage the archetype has no parameters
    for. *)
Definition config_gap : ModelConfig num := {|
  total_budget_m := of_int 100;
  overhead_pct := fzero;
  start_year := 2026;
  end_year := 2026;
  pipeline_stages := ["Early"; "Mid"; "Late"];
  stage_mix := <[ "Early" := c0_2 ]> (<[ "Late" := c0_8 ]> ∅);
  stage_conversion_rates :=
    <[ "Early" := c0_5 ]> (<[ "Mid" := c0_5 ]> ∅);
  intake_spread_months := 1;
  utilization_rate := fone;
  ramp_months := 0;
  archetypes := [archetype];
|}.

(** The monthly table the specification expects, as (month, stage,
    effective_projects): Early at [two] and Late at [eight] from January to
    June 2026, Late at [one] from July to December 2026. *)
Definition expected_view (two eight one : num) : list (Z * string * num) :=
  map (λ m, (m, "Early", two))
    (range (first_of_month 2026 1) (first_of_month 2026 7))
  ++ map (λ m, (m, "Late", eight))
       (range (first_of_month 2026 1) (first_of_month 2026 7))
  ++ map (λ m, (m, "Late", one))
       (range (first_of_month 2026 7) (first_of_month 2027 1)).

End Scenario.

Definition config_float : ModelConfig float :=
  config 0.2%float 0.8%float 0.5%float.
Definition config_Q : ModelConfig Q :=
  config (2 # 10)%Q (8 # 10)%Q (5 # 10)%Q.
Definition config_gap_Q : ModelConfig Q :=
  config_gap (2 # 10)%Q (8 # 10)%Q (5 # 10)%Q.

(** The month index of a run of the scenario: January 2026 to December
    2027. *)
Definition idx : list Z :=
  date_range (first_of_month 2026 1) (first_of_month 2027 12).

(** The (month, stage, effective_projects) columns of a monthly table. *)
Definition view {num : Type} (rs : list (MonthlyRecord num))
    : list (Z * string * num) :=
  map (λ r, (rec_month r, rec_stage r, effective_projects r)) rs.

(** The same columns with every fraction in lowest terms. *)
Definition view_Q (rs : list (MonthlyRecord Q)) : list (Z * string * Q) :=
  map (λ r, (rec_month r, rec_stage r, Qred (effective_projects r))) rs.

End Scenario.

(** ** Degenerate configurations *)

Module Degenerate.

(** No archetype at all, over the years 2026 and 2027. *)
Definition no_archetypes : ModelConfig Q := {|
  total_budget_m := 100%Q;
  overhead_pct := 0%Q;
  start_year := 2026;
  end_year := 2027;
  pipeline_stages := ["Early"; "Late"];
  stage_mix := <[ "Early" := (2 # 10)%Q ]> (<[ "Late" := (8 # 10)%Q ]> ∅);
  stage_conversion_rates := <[ "Early" := (5 # 10)%Q ]> ∅;
  intake_spread_months := 1;
  utilization_rate := 1%Q;
  ramp_months := 0;
  archetypes := [];
|}.

(** One stage of four months with a ramp of four months; the budget pays
    for 2e-9 projects a year, each staffed by 1e9 researchers. *)
Definition slow_ramp : ModelConfig Q := {|
  total_budget_m := (2 # 1000000000)%Q;
  overhead_pct := 0%Q;
  start_year := 2026;
  end_year := 2026;
  pipeline_stages := ["S"];
  stage_mix := <[ "S" := 1%Q ]> ∅;
  stage_conversion_rates := ∅;
  intake_spread_months := 1;
  utilization_rate := 1%Q;
  ramp_months := 4;
  archetypes := [ {|
    name := "A";
    portfolio_share := 1%Q;
    stages := <[ "S" := {| duration_months := 4; cost_millions := 1%Q;
                           fte_research := 1000000000%Q;
                           fte_developer := 0%Q |} ]> ∅ |} ];
|}.

End Degenerate.

(** ** Notions used by the statements *)

Section Notions.
Context {num : Type} `{PyNum num}.
Local Open Scope py_scope.

(** A start event, or an active value, the engine does not skip. *)
Definition non_negligible (n : num) : bool := negb (n <? lit_1e_9).

(** The sum of a list, accumulated from [0.0] in the order of the list. *)
Definition sum_of (l : list num) : num := fold_left fadd l fzero.

(** The start events of non-negligible size in the [duration] months that
    end at [m']. *)
Definition trailing_window (starts : Series num) (duration m' : Z)
    : Series num :=
  List.filter (λ e, non_negligible e.2
                    && (m' - duration <? e.1)%Z && (e.1 <=? m')%Z) starts.

Definition trailing_window_sum (starts : Series num) (duration m' : Z) : num :=
  sum_of (map snd (trailing_window starts duration m')).

(** The no-ramp loop body, as an update of each item. *)
Definition window_update (duration : Z) (e : Z * num) (l : Z) (v : num) : num :=
  if e.2 <? lit_1e_9 then v
  else if ((e.1 <=? l) && (l <? e.1 + duration))%Z then v + e.2 else v.

(** The ramp loop body, as an update of each item: a cohort of [e.2] projects
    started at [e.1] counts at offset [l - e.1] with the ramp factor. *)
Definition ramp_update (duration ramp_months : Z) (e : Z * num) (l : Z)
    (v : num) : num :=
  if e.2 <? lit_1e_9 then v
  else if ((e.1 <=? l) && (l <? e.1 + duration))%Z
       then v + e.2 * ramp_factor (l - e.1) ramp_months else v.

(** The start events of non-negligible size that complete at [m']: those
    placed [dur] months before it. *)
Definition completing_at (starts : Series num) (dur m' : Z) : Series num :=
  List.filter (λ e, non_negligible e.2 && (e.1 + dur =? m')%Z) starts.

Definition completions_at (starts : Series num) (dur m' : Z) : num :=
  sum_of (map snd (completing_at starts dur m')).

(** The record emitted for [n] active projects of a stage in month [dt]. *)
Definition stage_record (arch : Archetype num) (sname : string)
    (sp : StageParams num) (utilization : num) (dt : Z) (n : num)
    : MonthlyRecord num :=
  {| rec_month := dt;
     rec_year := year_of dt;
     rec_archetype := name arch;
     rec_stage := sname;
     effective_projects := n;
     rec_fte_research := n * fte_research sp / utilization;
     rec_fte_developer := n * fte_developer sp / utilization;
     rec_fte_total := n * (fte_research sp + fte_developer sp) / utilization |}.

(** What every record emitted for an archetype satisfies. *)
Definition emitted_for (arch : Archetype num) (r : MonthlyRecord num) : Prop :=
  rec_archetype r = name arch
  ∧ is_Some (stages arch !! rec_stage r)
  ∧ (effective_projects r <? lit_1e_9) = false.

(** The stages [l] with their positions in the pipeline, the first one at
    position [k]. *)
Definition enumerate_from {A : Type} (k : nat) (l : list A) : list (nat * A) :=
  imap (λ i x, ((k + i)%nat, x)) l.

(** The sum of a group: its first value, to which the others are added in
    order. *)
Definition sum_from_first (l : list num) : num :=
  match l with
  | [] => fzero
  | x :: rest => fold_left fadd rest x
  end.

(** The records of a month, and the three sums of the month. *)
Definition of_month (data : list (MonthlyRecord num)) (m : Z)
    : list (MonthlyRecord num) :=
  List.filter (λ r, (rec_month r =? m)%Z) data.

Definition month_sums (data : list (MonthlyRecord num)) (m : Z)
    : num * num * num :=
  let rs := of_month data m in
  (sum_from_first (map rec_fte_total rs),
   sum_from_first (map rec_fte_research rs),
   sum_from_first (map rec_fte_developer rs)).

(** The row of a year without records. *)
Definition zero_row (yr : Z) : AnnualRow num :=
  {| Year := yr;
     Avg_monthly_FTE := fzero;
     Min_monthly_FTE := fzero;
     Max_monthly_FTE := fzero;
     Avg_Research_FTE := fzero;
     Avg_Developer_FTE := fzero |}.

(** The row of a year with records in the months [months]: the statistics
    of the per-month sums, each rounded to one decimal. *)
Definition stats_row (data : list (MonthlyRecord num)) (months : list Z)
    (yr : Z) : AnnualRow num :=
  let totals := map (λ m, (month_sums data m).1.1) months in
  let research := map (λ m, (month_sums data m).1.2) months in
  let developer := map (λ m, (month_sums data m).2) months in
  {| Year := yr;
     Avg_monthly_FTE := round1 (mean totals);
     Min_monthly_FTE := round1 (col_min totals);
     Max_monthly_FTE := round1 (col_max totals);
     Avg_Research_FTE := round1 (mean research);
     Avg_Developer_FTE := round1 (mean developer) |}.

(** The entry of a month when a record is added to it. *)
Definition triple_add (a b : num * num * num) : num * num * num :=
  let '(t, r, d) := a in
  let '(t', r', d') := b in
  (t + t', r + r', d + d').

(** The engine as the specification words it, with the threshold applied at
    no point before the aggregation: the emission step with its guard
    removed, and the run built on it. *)
Definition emit_all_records (arch : Archetype num) (sname : string)
    (sp : StageParams num) (utilization : num) (active : Series num)
    (idx : list Z) (records : list (MonthlyRecord num))
    : list (MonthlyRecord num) :=
  fold_left (λ records dt,
    records ++ [stage_record arch sname sp utilization dt (loc active dt)])
    idx records.

Definition run_stage_unsuppressed (cfg : ModelConfig num)
    (arch : Archetype num) (arch_projects : num) (idx : list Z)
    (utilization : num)
    (st : option (Series num) * list (MonthlyRecord num)) (ix : nat * string)
    : result (option (Series num) * list (MonthlyRecord num)) :=
  let '(prev_completions, records) := st in
  let '(i, sname) := ix in
  match stages arch !! sname with
  | None => Ok (None, records)
  | Some sp =>
      let dur := duration_months sp in
      starts ← stage_starts cfg arch_projects idx i sname prev_completions;
      let active := _active_stock starts dur idx (ramp_months cfg) in
      let this_completions := stage_completions starts dur idx in
      Ok (Some this_completions,
          emit_all_records arch sname sp utilization active idx records)
  end.

Definition run_unsuppressed (cfg : ModelConfig num)
    : result (list (MonthlyRecord num)) :=
  total_proj ← _projects_per_year cfg;
  idx ← month_index cfg;
  let utilization := fmax (utilization_rate cfg) lit_0_01 in
  for_each (archetypes cfg) (λ records arch,
    let arch_projects := total_proj * portfolio_share arch in
    st ← for_each (enumerate (pipeline_stages cfg))
           (run_stage_unsuppressed cfg arch arch_projects idx utilization)
           (None, records);
    Ok st.2) [].

(** The total of month [m] that the annual aggregation works with: the
    entry of the month in the grouped sums of its year, nothing when the
    month has no entry. *)
Definition month_total (rows : list (MonthlyRecord num)) (m : Z) : num :=
  match List.find (λ e, (e.1 =? m)%Z)
          (groupby_month (of_year rows (year_of m))) with
  | Some e => e.2.1.1
  | None => fzero
  end.

End Notions.

(** C2 as the specification states it: the monthly totals that feed the
    annual aggregation count every active value, the values suppressed from
    the monthly table included. *)
Definition suppression_is_presentation_only (cfg : ModelConfig Q) : Prop :=
  ∀ out all m,
    run cfg = Ok out → run_unsuppressed cfg = Ok all →
    (month_total (run_monthly out) m == month_total all m)%Q.

(** C3 as the specification states it: one row per year of the range. *)
Definition one_row_per_year (cfg : ModelConfig Q) (res : ModelResult Q) : Prop :=
  map Year (annual_summary res) = range (start_year cfg) (end_year cfg + 1).


(** ** Notions used by the further properties *)

Section MoreNotions.
Context {num : Type} `{PyNum num}.
Local Open Scope py_scope.

(** The active stock of month [m'], in closed form for the three branches
    of [_active_stock]. *)
Definition active_value (starts : Series num) (duration ramp_months m' : Z)
    : num :=
  if (duration <=? 0)%Z then fzero
  else if (ramp_months <=? 0)%Z then trailing_window_sum starts duration m'
  else fold_left (λ v e, ramp_update duration ramp_months e m' v) starts fzero.

(** The sum of the values of a series. *)
Definition series_sum (s : Series num) : num := sum_of (map snd s).

(** The start events the engine does not skip. *)
Definition counted (starts : Series num) : Series num :=
  List.filter (λ e, non_negligible e.2) starts.

(** The number of months of the index [[lo, hi)] in which a cohort started in
    month [m] for [d] months is active. *)
Definition months_in_index (lo hi m d : Z) : Z :=
  Z.max 0 (Z.min hi (m + d) - Z.max lo m).

(** Month [l] is one of the first [intake_spread_months] months of a year
    from [start_year] to [end_year]. *)
Definition is_intake_month (cfg : ModelConfig num) (l : Z) : bool :=
  ((start_year cfg <=? l / 12) && (l / 12 <=? end_year cfg)
   && (l mod 12 <? intake_spread_months cfg))%Z.

(** What a row of the monthly table is: the record of a month of the index
    for a stage of the pipeline that an archetype of the configuration
    defines, with a non-negligible number of effective projects. *)
Definition row_of_run (cfg : ModelConfig num) (idx : list Z)
    (utilization : num) (r : MonthlyRecord num) : Prop :=
  ∃ arch sp,
    arch ∈ archetypes cfg
    ∧ rec_stage r ∈ pipeline_stages cfg
    ∧ stages arch !! rec_stage r = Some sp
    ∧ rec_month r ∈ idx
    ∧ non_negligible (effective_projects r) = true
    ∧ r = stage_record arch (rec_stage r) sp utilization (rec_month r)
            (effective_projects r).

(** [cfg.utilization_rate = u], as the interface assigns the field. *)
Definition set_utilization_rate (cfg : ModelConfig num) (u : num)
    : ModelConfig num := {|
  total_budget_m := total_budget_m cfg;
  overhead_pct := overhead_pct cfg;
  start_year := start_year cfg;
  end_year := end_year cfg;
  pipeline_stages := pipeline_stages cfg;
  stage_mix := stage_mix cfg;
  stage_conversion_rates := stage_conversion_rates cfg;
  intake_spread_months := intake_spread_months cfg;
  utilization_rate := u;
  ramp_months := ramp_months cfg;
  archetypes := archetypes cfg;
|}.

(** The months an archetype's projects spend in the pipeline: the durations
    of the stages of the pipeline the archetype has parameters for. *)
Definition pipeline_duration (cfg : ModelConfig num) (a : Archetype num) : Z :=
  foldr Z.add 0%Z
    (map (λ s, default 0%Z (duration_months <$> stages a !! s))
       (pipeline_stages cfg)).

(** *** The interface's repair of the archetypes (app.py) *)

(** [StageParams(9, 8.0, 3.0, 2.0)], the parameters given to a stage an
    archetype lacks. *)
Definition default_stage_params : StageParams num :=
  {| duration_months := 9; cost_millions := of_int 8;
     fte_research := of_int 3; fte_developer := of_int 2 |}.

(** The body of the loop of [_sync_archetypes] on the [stages] dict of one
    archetype: the missing stages are added, the keys that are no stage of
    the pipeline are deleted, and the dict is rebuilt in pipeline order. *)
Definition sync_stages (pipeline : list string)
    (st : gmap string (StageParams num)) : gmap string (StageParams num) :=
  let st :=
    fold_left (λ st sname,
      if bool_decide (is_Some (st !! sname)) then st
      else <[ sname := default_stage_params ]> st) pipeline st in
  let extra :=
    List.filter (λ k, negb (bool_decide (k ∈ pipeline)))
      (map fst (map_to_list st)) in
  let st := fold_left (λ st k, delete k st) extra st in
  fold_left (λ ordered s,
    match st !! s with
    | Some sp => <[ s := sp ]> ordered
    | None => ordered
    end) pipeline ∅.

Definition _sync_archetypes (cfg : ModelConfig num) : ModelConfig num := {|
  total_budget_m := total_budget_m cfg;
  overhead_pct := overhead_pct cfg;
  start_year := start_year cfg;
  end_year := end_year cfg;
  pipeline_stages := pipeline_stages cfg;
  stage_mix := stage_mix cfg;
  stage_conversion_rates := stage_conversion_rates cfg;
  intake_spread_months := intake_spread_months cfg;
  utilization_rate := utilization_rate cfg;
  ramp_months := ramp_months cfg;
  archetypes :=
    map (λ arch, {| name := name arch;
                    portfolio_share := portfolio_share arch;
                    stages := sync_stages (pipeline_stages cfg) (stages arch) |})
      (archetypes cfg);
|}.

End MoreNotions.

(** The configurations in which no project ever starts: no volume at all,
    an intake window without months, or an empty range of intake years. *)
Definition no_direct_volume (cfg : ModelConfig Q) (p : Q) : Prop :=
  (p == 0)%Q ∨ (intake_spread_months cfg ≤ 0)%Z
  ∨ (end_year cfg < start_year cfg)%Z.

(** ** Further configurations *)

Module Variants.

(** The scenario with an intake window of thirteen months. *)
Definition wide_intake : ModelConfig Q := {|
  total_budget_m := 100%Q;
  overhead_pct := 0%Q;
  start_year := 2026;
  end_year := 2026;
  pipeline_stages := ["Early"; "Late"];
  stage_mix := <[ "Early" := (2 # 10)%Q ]> (<[ "Late" := (8 # 10)%Q ]> ∅);
  stage_conversion_rates := <[ "Early" := (5 # 10)%Q ]> ∅;
  intake_spread_months := 13;
  utilization_rate := 1%Q;
  ramp_months := 0;
  archetypes := [Scenario.archetype];
|}.

(** The scenario with no intake year: [end_year] is before [start_year]. *)
Definition no_intake_years : ModelConfig Q := {|
  total_budget_m := 100%Q;
  overhead_pct := 0%Q;
  start_year := 2026;
  end_year := 2025;
  pipeline_stages := ["Early"; "Late"];
  stage_mix := <[ "Early" := (2 # 10)%Q ]> (<[ "Late" := (8 # 10)%Q ]> ∅);
  stage_conversion_rates := <[ "Early" := (5 # 10)%Q ]> ∅;
  intake_spread_months := 1;
  utilization_rate := 1%Q;
  ramp_months := 0;
  archetypes := [Scenario.archetype];
|}.

(** Two cohorts of a stage of six months: eight projects in January 2026
    and one in July 2026. *)
Definition cohorts : Series Q :=
  [(first_of_month 2026 1, 8%Q); (first_of_month 2026 7, 1%Q)].

(** A monthly table of one record. *)
Definition one_row : list (MonthlyRecord Q) :=
  [ {| rec_month := first_of_month 2026 1; rec_year := 2026;
       rec_archetype := "A"; rec_stage := "Early";
       effective_projects := 2%Q; rec_fte_research := 2%Q;
       rec_fte_developer := 0%Q; rec_fte_total := 2%Q |} ].

End Variants.

(** ** The engine on the interpreter's store

    Between two calls of the engine the interpreter keeps the object the
    caller passes, [cfg], with everything reachable from it (its lists,
    dicts and archetypes); model.py has no module-level variable.  The
    engine is therefore written once more, statement by statement, as a
    computation on a store that holds the configuration: reading an
    attribute or an item of an object reachable from [cfg] is [attr],
    assigning to one is [assign], and what a function computes on its local
    values (floats, Series, the [records] list) is taken from the
    definitions above.  A raised exception leaves the store as the
    statements before it made it. *)

Section Store.
Context {num : Type} `{PyNum num}.
Local Open Scope py_scope.

Definition Eng (A : Type) : Type :=
  ModelConfig num → result A * ModelConfig num.




(** Assigning to an attribute or an item of an object of the
    configuration. *)
Definition assign (f : ModelConfig num → ModelConfig num) : Eng unit :=
  λ s, (Ok tt, f s).





















(** [_sync_archetypes] of the interface, which does write to the
    configuration it is given. *)
Definition _sync_archetypes_st : Eng unit := assign _sync_archetypes.

End Store.

(** Case analysis on the integer comparisons of the goal. *)
Ltac zcases :=
  repeat match goal with
  | |- context [(?a <=? ?b)%Z] => destruct (Z.leb_spec a b)
  | |- context [(?a <? ?b)%Z] => destruct (Z.ltb_spec a b)
  | |- context [(?a =? ?b)%Z] => destruct (Z.eqb_spec a b)
  end; simpl; try done; try lia.

(** * Properties *)

Section SeriesFacts.
Context {num : Type} `{PyNum num}.
Local Open Scope py_scope.

(** A loop whose body updates every item of a series by a function of its
    label and value computes, at each label, the fold of that function. *)
Lemma fold_pointwise {X : Type} (upd : X → Z → num → num) (l : list X)
    (s : Series num) :
  fold_left (λ s x, map (λ p, (p.1, upd x p.1 p.2)) s) l s
  = map (λ p, (p.1, fold_left (λ v x, upd x p.1 v) l p.2)) s.
Proof.
  revert s. induction l as [|x l IH]; intros s; simpl.
  - rewrite <- (map_id s) at 1. apply map_ext. by intros [m v].
  - rewrite IH, map_map. by apply map_ext.
Qed.

Lemma fold_left_ext_body {A B : Type} (f g : A → B → A) (l : list B) (a : A) :
  (∀ a b, f a b = g a b) → fold_left f l a = fold_left g l a.
Proof.
  intros Hfg. revert a. induction l as [|b l IH]; intros a; simpl; [done|].
  by rewrite Hfg, IH.
Qed.

Lemma new_series_pointwise (v : num) (idx : list Z) (f : Z → num → num) :
  map (λ p, (p.1, f p.1 p.2)) (new_series v idx) = map (λ m, (m, f m v)) idx.
Proof. unfold new_series. rewrite map_map. by apply map_ext. Qed.

Lemma window_update_fold (duration : Z) (starts : Series num) (m' : Z) (v : num) :
  fold_left (λ v e, window_update duration e m' v) starts v
  = fold_left fadd (map snd (trailing_window starts duration m')) v.
Proof.
  revert v. induction starts as [|[dt n] starts IH]; intros v; simpl; [done|].
  unfold window_update at 2, non_negligible. simpl.
  destruct (n <? lit_1e_9); simpl; [by rewrite IH|].
  replace ((m' - duration <? dt)%Z && (dt <=? m')%Z)
    with ((dt <=? m')%Z && (m' <? dt + duration)%Z).
  - destruct ((dt <=? m')%Z && (m' <? dt + duration)%Z); simpl; by rewrite IH.
  - destruct (Z.leb_spec dt m'), (Z.ltb_spec m' (dt + duration)),
      (Z.ltb_spec (m' - duration) dt); simpl; try done; lia.
Qed.

Lemma map_pointwise_id (s : Series num) : map (λ p, (p.1, p.2)) s = s.
Proof. rewrite <- (map_id s) at 2. apply map_ext. by intros [m v]. Qed.

Lemma index_pointwise (f : Z → num → num) (s : Series num) :
  index (map (λ p, (p.1, f p.1 p.2)) s) = index s.
Proof. unfold index. rewrite map_map. by apply map_ext. Qed.

Lemma loc_add_pointwise (s : Series num) (m : Z) (x : num) :
  loc_add s m x = map (λ p, (p.1, if (p.1 =? m)%Z then p.2 + x else p.2)) s.
Proof.
  unfold loc_add. apply map_ext. intros [l v]. simpl. by destruct (l =? m)%Z.
Qed.

Lemma index_loc_add (s : Series num) (m : Z) (x : num) :
  index (loc_add s m x) = index s.
Proof.
  rewrite loc_add_pointwise.
  apply (index_pointwise (λ l v, if (l =? m)%Z then v + x else v)).
Qed.

(** Adding at a label that is not in the index changes nothing, so the test
    [m in s.index] that guards an update can be dropped. *)
Lemma loc_add_absent (s : Series num) (m : Z) (x : num) :
  contains (index s) m = false → loc_add s m x = s.
Proof.
  unfold contains, index, loc_add. induction s as [|[l v] s IH]; simpl; [done|].
  intros [Hl Hs]%orb_false_iff. rewrite IH by done.
  rewrite Z.eqb_sym in Hl. by rewrite Hl.
Qed.

Lemma guarded_loc_add (s : Series num) (m : Z) (x : num) :
  (if contains (index s) m then loc_add s m x else s) = loc_add s m x.
Proof.
  destruct (contains (index s) m) eqn:Hc; [done|]. by rewrite loc_add_absent.
Qed.

Lemma contains_elem_of (idx : list Z) (m : Z) :
  contains idx m = true ↔ m ∈ idx.
Proof.
  unfold contains. rewrite existsb_exists. split.
  - intros (x & Hin & ->%Z.eqb_eq). by apply list_elem_of_In.
  - intros Hin. exists m. split; [by apply list_elem_of_In | apply Z.eqb_refl].
Qed.

(** Reading a series that is given by a function of the label. *)
Lemma loc_or_tabulate (fill : num) (f : Z → num) (idx : list Z) (m : Z) :
  m ∈ idx → loc_or fill (map (λ l, (l, f l)) idx) m = f m.
Proof.
  unfold loc_or. induction idx as [|l idx IH]; simpl.
  - by intros ?%elem_of_nil.
  - intros Hin. destruct (Z.eqb_spec l m) as [->|Hne]; [done|].
    apply IH. apply elem_of_cons in Hin as [->|Hin]; [done|exact Hin].
Qed.

Lemma loc_or_absent (fill : num) (s : Series num) (m : Z) :
  m ∉ index s → loc_or fill s m = fill.
Proof.
  unfold loc_or, index. induction s as [|[l v] s IH]; simpl; [done|].
  intros Hnin. destruct (Z.eqb_spec l m) as [->|Hne].
  - exfalso. apply Hnin. left.
  - apply IH. intros Hin. apply Hnin. by right.
Qed.

Lemma loc_tabulate (f : Z → num) (idx : list Z) (m : Z) :
  m ∈ idx → loc (map (λ l, (l, f l)) idx) m = f m.
Proof. apply loc_or_tabulate. Qed.

(** One pass over the offsets [lo, lo + len) touches the label [l] at most
    once, at the offset [l - dt]. *)
Lemma offsets_fold (g : Z → num) (dt l : Z) (len : nat) (lo : Z) (v : num) :
  fold_left (λ v m, if (l =? dt + m)%Z then v + g m else v)
    (seqZ lo (Z.of_nat len)) v
  = if ((lo <=? l - dt) && (l - dt <? lo + Z.of_nat len))%Z
    then v + g (l - dt)%Z else v.
Proof.
  revert lo v. induction len as [|len IH]; intros lo v.
  - simpl. zcases.
  - rewrite Nat2Z.inj_succ, seqZ_cons by lia. simpl.
    replace (Z.pred (Z.succ (Z.of_nat len))) with (Z.of_nat len) by lia.
    rewrite IH. destruct (Z.eqb_spec l (dt + lo)%Z) as [->|Hne].
    + replace (dt + lo - dt)%Z with lo by lia. zcases.
    + zcases.
Qed.

Lemma range_offsets_fold (g : Z → num) (dt l duration : Z) (v : num) :
  (0 ≤ duration)%Z →
  fold_left (λ v m, if (l =? dt + m)%Z then v + g m else v) (range 0 duration) v
  = if ((dt <=? l) && (l <? dt + duration))%Z then v + g (l - dt)%Z else v.
Proof.
  intros Hd. unfold range.
  replace (duration - 0)%Z with (Z.of_nat (Z.to_nat duration)) by lia.
  rewrite offsets_fold. rewrite Z2Nat.id by done. zcases.
Qed.

Lemma completion_fold (dur : Z) (starts : Series num) (m' : Z) (v : num) :
  fold_left (λ v e, if e.2 <? lit_1e_9 then v
                    else if (m' =? e.1 + dur)%Z then v + e.2 else v) starts v
  = fold_left fadd (map snd (completing_at starts dur m')) v.
Proof.
  revert v. induction starts as [|[dt n] starts IH]; intros v; simpl; [done|].
  unfold non_negligible. simpl. rewrite (Z.eqb_sym (dt + dur) m').
  destruct (n <? lit_1e_9); simpl; [by rewrite IH|].
  destruct (m' =? dt + dur)%Z; simpl; by rewrite IH.
Qed.

Lemma loc_or_pointwise (fill : num) (f : Z → num → num) (s : Series num)
    (m : Z) :
  m ∈ index s →
  loc_or fill (map (λ p, (p.1, f p.1 p.2)) s) m = f m (loc_or fill s m).
Proof.
  unfold loc_or, index. induction s as [|[l v] s IH]; simpl.
  - by intros ?%elem_of_nil.
  - intros Hin. destruct (Z.eqb_spec l m) as [->|Hne]; [done|].
    apply IH. apply elem_of_cons in Hin as [->|Hin]; [done|exact Hin].
Qed.

End SeriesFacts.

Section ActiveStock.
Context {num : Type} `{PyNum num}.
Local Open Scope py_scope.

(** C4: without ramp and with a duration of at least one month, the active
    stock is a sliding-window sum: at every month [m'] of the index it is the
    sum of the non-negligible start events of the [duration] months ending at
    [m'], each event of size [n] at month [m] counting for the months of
    [[m, m + duration)]. *)
Theorem active_stock_sliding_window (starts : Series num) (duration : Z)
    (idx : list Z) (ramp_months : Z) :
  (ramp_months ≤ 0)%Z → (1 ≤ duration)%Z →
  let active := _active_stock starts duration idx ramp_months in
  active = map (λ m', (m', trailing_window_sum starts duration m')) idx
  ∧ ∀ m', m' ∈ idx → loc active m' = trailing_window_sum starts duration m'.
Proof.
  intros Hramp Hdur active.
  assert (active
          = map (λ m', (m', trailing_window_sum starts duration m')) idx)
    as Hactive.
  { unfold active, _active_stock.
    destruct (Z.leb_spec duration 0) as [?|_]; [lia|].
    destruct (Z.leb_spec ramp_months 0) as [_|?]; [|lia].
    rewrite (fold_left_ext_body _
      (λ s e, map (λ p, (p.1, window_update duration e p.1 p.2)) s)).
    - rewrite fold_pointwise.
      rewrite (new_series_pointwise _ _
        (λ m v, fold_left (λ v e, window_update duration e m v) starts v)).
      apply map_ext. intros m'. by rewrite window_update_fold.
    - intros a [dt n]. unfold window_update, mask_add. simpl.
      destruct (n <? lit_1e_9).
      + rewrite <- (map_id a) at 1. apply map_ext. by intros [m v].
      + apply map_ext. intros [m v]. simpl.
        by destruct ((dt <=? m)%Z && (m <? dt + duration)%Z). }
  split; [exact Hactive|]. intros m' Hm'. rewrite Hactive.
  by rewrite (loc_tabulate (λ l, trailing_window_sum starts duration l)).
Qed.

(** The ramp branch in closed form. *)
Lemma active_stock_ramp (starts : Series num) (duration : Z) (idx : list Z)
    (ramp_months : Z) :
  (0 < ramp_months)%Z → (1 ≤ duration)%Z →
  _active_stock starts duration idx ramp_months
  = map (λ m', (m', fold_left
                      (λ v e, ramp_update duration ramp_months e m' v)
                      starts fzero)) idx.
Proof.
  intros Hramp Hdur. unfold _active_stock.
  destruct (Z.leb_spec duration 0) as [?|_]; [lia|].
  destruct (Z.leb_spec ramp_months 0) as [?|_]; [lia|].
  rewrite (fold_left_ext_body _
    (λ s e, map (λ p, (p.1, ramp_update duration ramp_months e p.1 p.2)) s)).
  - rewrite fold_pointwise.
    by rewrite (new_series_pointwise _ _
      (λ m v, fold_left (λ v e, ramp_update duration ramp_months e m v)
                starts v)).
  - intros a [dt n]. unfold ramp_update. simpl.
    destruct (n <? lit_1e_9); [by rewrite map_pointwise_id|].
    rewrite (fold_left_ext_body _
      (λ s m, map (λ p, (p.1, (λ m l v,
         if (l =? dt + m)%Z then v + n * ramp_factor m ramp_months else v)
           m p.1 p.2)) s)).
    + rewrite (fold_pointwise (λ m l v,
        if (l =? dt + m)%Z then v + n * ramp_factor m ramp_months else v)).
      apply map_ext. intros [l v]. simpl.
      by rewrite (range_offsets_fold
        (λ m, n * ramp_factor m ramp_months)) by lia.
    + intros s m. rewrite guarded_loc_add. apply loc_add_pointwise.
Qed.

(** Start events below the threshold leave the accumulated value alone. *)
Lemma ramp_update_negligible (duration ramp_months : Z) (s : Series num)
    (m' : Z) (v : num) :
  Forall (λ e, non_negligible e.2 = false) s →
  fold_left (λ v e, ramp_update duration ramp_months e m' v) s v = v.
Proof.
  induction 1 as [|[dt n] s Hn _ IH]; simpl; [done|].
  unfold ramp_update at 2. simpl.
  unfold non_negligible in Hn. apply negb_false_iff in Hn. simpl in Hn.
  by rewrite Hn.
Qed.

(** The contribution of a cohort that is the only non-negligible start: at
    offset [k] it is the cohort size times the ramp factor. *)
Lemma single_cohort_active (idx : list Z) (s1 s2 : Series num) (m : Z)
    (n : num) (ramp_months duration k : Z) :
  Forall (λ e, non_negligible e.2 = false) s1 →
  Forall (λ e, non_negligible e.2 = false) s2 →
  non_negligible n = true →
  (0 < ramp_months)%Z → (0 ≤ k < duration)%Z → (m + k)%Z ∈ idx →
  loc (_active_stock (s1 ++ (m, n) :: s2) duration idx ramp_months) (m + k)
  = fzero + n * ramp_factor k ramp_months.
Proof.
  intros Hs1 Hs2 Hn Hramp Hk Hin.
  rewrite active_stock_ramp by lia.
  rewrite (loc_tabulate (λ m', fold_left
    (λ v e, ramp_update duration ramp_months e m' v)
    (s1 ++ (m, n) :: s2) fzero)) by done.
  rewrite fold_left_app. simpl.
  rewrite ramp_update_negligible by done.
  rewrite ramp_update_negligible by done.
  unfold ramp_update. simpl.
  unfold non_negligible in Hn. apply negb_true_iff in Hn. rewrite Hn.
  replace (m + k - m)%Z with k by lia.
  destruct (Z.leb_spec m (m + k)); [|lia].
  destruct (Z.ltb_spec (m + k) (m + duration)); [done|lia].
Qed.

End ActiveStock.

Section Completions.
Context {num : Type} `{PyNum num}.
Local Open Scope py_scope.

(** The completions of a stage are its non-negligible starts, moved by the
    duration of the stage; an event whose landing month is not in the index
    is dropped. *)
Lemma stage_completions_closed (starts : Series num) (dur : Z) (idx : list Z) :
  stage_completions starts dur idx
  = map (λ m', (m', completions_at starts dur m')) idx.
Proof.
  unfold stage_completions.
  rewrite (fold_left_ext_body _
    (λ s e, map (λ p, (p.1, (λ e l v,
       if e.2 <? lit_1e_9 then v
       else if (l =? e.1 + dur)%Z then v + e.2 else v) e p.1 p.2)) s)).
  - rewrite (fold_pointwise (λ e l v,
      if e.2 <? lit_1e_9 then v
      else if (l =? e.1 + dur)%Z then v + e.2 else v)).
    rewrite (new_series_pointwise _ _
      (λ m v, fold_left (λ v e, if e.2 <? lit_1e_9 then v
                 else if (m =? e.1 + dur)%Z then v + e.2 else v) starts v)).
    apply map_ext. intros m'. f_equal. apply completion_fold.
  - intros a [dt n]. simpl.
    destruct (n <? lit_1e_9); [by rewrite map_pointwise_id|].
    rewrite guarded_loc_add. apply loc_add_pointwise.
Qed.

End Completions.

Section Runner.
Context {num : Type} `{PyNum num}.
Local Open Scope py_scope.

Lemma for_each_cons {A S : Type} (x : A) (l : list A)
    (body : S → A → result S) (s : S) :
  for_each (x :: l) body s = (s' ← body s x; for_each l body s').
Proof. done. Qed.

Lemma for_each_app {A S : Type} (l1 l2 : list A) (body : S → A → result S)
    (s : S) :
  for_each (l1 ++ l2) body s = (s' ← for_each l1 body s; for_each l2 body s').
Proof.
  revert s. induction l1 as [|x l1 IH]; intros s; simpl; [done|].
  destruct (body s x); simpl; [apply IH | done].
Qed.

(** A property of the state that every iteration preserves holds when the
    loop returns. *)
Lemma for_each_invariant {A S : Type} (P : S → Prop) (l : list A)
    (body : S → A → result S) (s s' : S) :
  (∀ s x s', x ∈ l → P s → body s x = Ok s' → P s') →
  P s → for_each l body s = Ok s' → P s'.
Proof.
  revert s. induction l as [|x l IH]; intros s Hstep Hs; simpl.
  - by intros [= <-].
  - destruct (body s x) as [s1|] eqn:Hb; simpl; [|done].
    apply IH.
    + intros s2 y s3 Hy. apply Hstep. by right.
    + eapply Hstep; [left|exact Hs|exact Hb].
Qed.

(** A loop whose iterations all return does return. *)
Lemma for_each_total {A S : Type} (l : list A) (body : S → A → result S)
    (s : S) :
  (∀ s x, x ∈ l → ∃ s', body s x = Ok s') → ∃ s', for_each l body s = Ok s'.
Proof.
  revert s. induction l as [|x l IH]; intros s Hbody; simpl; [by eexists|].
  destruct (Hbody s x) as [s1 ->]; [left|]. simpl.
  apply IH. intros s2 y Hy. apply Hbody. by right.
Qed.

(** The emission loop appends the records of the months of non-negligible
    activity, in the order of the index. *)
Lemma emit_records_closed (arch : Archetype num) (sname : string)
    (sp : StageParams num) (utilization : num) (active : Series num)
    (idx : list Z) (records : list (MonthlyRecord num)) :
  emit_records arch sname sp utilization active idx records
  = records
    ++ map (λ dt, stage_record arch sname sp utilization dt (loc active dt))
         (List.filter (λ dt, non_negligible (loc active dt)) idx).
Proof.
  unfold emit_records. revert records.
  induction idx as [|dt idx IH]; intros records; simpl.
  - by rewrite app_nil_r.
  - unfold non_negligible at 1. destruct (loc active dt <? lit_1e_9); simpl.
    + apply IH.
    + rewrite IH, <- app_assoc. done.
Qed.

Lemma emit_records_emitted_for (arch : Archetype num) (sname : string)
    (sp : StageParams num) (utilization : num) (active : Series num)
    (idx : list Z) (records : list (MonthlyRecord num)) :
  stages arch !! sname = Some sp →
  ∃ new, emit_records arch sname sp utilization active idx records
         = records ++ new
         ∧ Forall (λ r, emitted_for arch r ∧ rec_stage r = sname) new.
Proof.
  intros Hsp. rewrite emit_records_closed. eexists. split; [done|].
  apply Forall_forall. intros r [dt [<- Hdt]]%list_elem_of_In%in_map_iff.
  apply filter_In in Hdt as [_ Hn]. unfold non_negligible in Hn.
  apply negb_true_iff in Hn. repeat split; simpl; [by rewrite Hsp | done].
Qed.

(** The direct intake only changes values: the index of the start series
    is kept. *)
Lemma direct_starts_index (cfg : ModelConfig num) (starts starts' : Series num)
    (monthly_n : num) :
  direct_starts cfg starts monthly_n = Ok starts' →
  index starts' = index starts.
Proof.
  unfold direct_starts.
  apply (for_each_invariant (λ s, index s = index starts)); [|done].
  intros s y s' _ Hs.
  apply (for_each_invariant (λ s, index s = index starts)); [|done].
  clear. intros s m s' _ Hs. destruct (Timestamp y m); simpl; [|done].
  intros [= <-]. rewrite guarded_loc_add. by rewrite index_loc_add.
Qed.

(** With an intake window of at most twelve months every timestamp of the
    intake loop exists, so the loop returns. *)
Lemma direct_starts_total (cfg : ModelConfig num) (starts : Series num)
    (monthly_n : num) :
  (intake_spread_months cfg ≤ 12)%Z →
  ∃ starts', direct_starts cfg starts monthly_n = Ok starts'.
Proof.
  intros Hism. unfold direct_starts.
  apply for_each_total. intros s y _.
  apply for_each_total. intros s' m Hm.
  unfold range in Hm. apply elem_of_seqZ in Hm.
  unfold Timestamp.
  destruct (Z.leb_spec 1 m); [|lia]. destruct (Z.leb_spec m 12); [|lia].
  simpl. by eexists.
Qed.

Lemma index_series_add (a b : Series num) : index (series_add a b) = index a.
Proof.
  unfold series_add.
  apply (index_pointwise (λ l v, v + loc_or fzero b l)).
Qed.

Lemma index_add_converted (cfg : ModelConfig num) (i : nat)
    (prev : option (Series num)) (starts : Series num) :
  index (add_converted cfg i prev starts) = index starts.
Proof.
  unfold add_converted. repeat case_match; try done. apply index_series_add.
Qed.

Lemma index_new_series (v : num) (idx : list Z) : index (new_series v idx) = idx.
Proof. unfold index, new_series. rewrite map_map. apply map_id. Qed.

(** The start series of a stage is its direct intake, to which the converted
    inflow is added. *)
Lemma stage_starts_converted (cfg : ModelConfig num) (arch_projects : num)
    (idx : list Z) (i : nat) (sname : string) (prev : option (Series num))
    (direct : Series num) :
  stage_starts cfg arch_projects idx i sname None = Ok direct →
  stage_starts cfg arch_projects idx i sname prev
  = Ok (add_converted cfg i prev direct).
Proof.
  unfold stage_starts.
  destruct (if _ >? fzero then _ else _) as [starts|]; simpl; [|done].
  by intros [= <-].
Qed.

Lemma stage_starts_index (cfg : ModelConfig num) (arch_projects : num)
    (idx : list Z) (i : nat) (sname : string) (prev : option (Series num))
    (starts : Series num) :
  stage_starts cfg arch_projects idx i sname prev = Ok starts →
  index starts = idx.
Proof.
  unfold stage_starts.
  destruct (if _ >? fzero then _ else _) as [direct|] eqn:Hd; simpl; [|done].
  intros [= <-]. rewrite index_add_converted.
  destruct (_ >? fzero).
  - apply direct_starts_index in Hd. by rewrite Hd, index_new_series.
  - injection Hd as <-. apply index_new_series.
Qed.

Lemma stage_starts_total (cfg : ModelConfig num) (arch_projects : num)
    (idx : list Z) (i : nat) (sname : string) (prev : option (Series num)) :
  (intake_spread_months cfg ≤ 12)%Z →
  ∃ starts, stage_starts cfg arch_projects idx i sname prev = Ok starts.
Proof.
  intros Hism. unfold stage_starts. destruct (_ >? fzero).
  - edestruct direct_starts_total as [starts ->]; [done|]. simpl. by eexists.
  - simpl. by eexists.
Qed.

(** One stage appends records of its own archetype and stage, and nothing
    else. *)
Lemma run_stage_records (cfg : ModelConfig num) (arch : Archetype num)
    (arch_projects : num) (idx : list Z) (utilization : num)
    (prev prev' : option (Series num)) (records records' : list (MonthlyRecord num))
    (i : nat) (sname : string) :
  run_stage cfg arch arch_projects idx utilization (prev, records) (i, sname)
  = Ok (prev', records') →
  ∃ new, records' = records ++ new
         ∧ Forall (λ r, emitted_for arch r ∧ rec_stage r = sname) new.
Proof.
  unfold run_stage. destruct (stages arch !! sname) as [sp|] eqn:Hsp.
  - destruct (stage_starts _ _ _ _ _ _) as [starts|]; simpl; [|done].
    intros [= <- <-]. by apply emit_records_emitted_for.
  - intros [= <- <-]. exists []. by rewrite app_nil_r.
Qed.

Lemma run_stage_total (cfg : ModelConfig num) (arch : Archetype num)
    (arch_projects : num) (idx : list Z) (utilization : num)
    (st : option (Series num) * list (MonthlyRecord num)) (ix : nat * string) :
  (intake_spread_months cfg ≤ 12)%Z →
  ∃ st', run_stage cfg arch arch_projects idx utilization st ix = Ok st'.
Proof.
  intros Hism. destruct st as [prev records], ix as [i sname].
  unfold run_stage. destruct (stages arch !! sname) as [sp|]; [|by eexists].
  edestruct stage_starts_total as [starts ->]; [done|]. simpl. by eexists.
Qed.

(** The shared [records] list is only appended to, with records of the
    archetype. *)
Lemma run_archetype_appends (cfg : ModelConfig num) (arch : Archetype num)
    (arch_projects : num) (idx : list Z) (utilization : num)
    (records out : list (MonthlyRecord num)) :
  _run_archetype cfg arch arch_projects idx utilization records = Ok out →
  ∃ new, out = records ++ new ∧ Forall (emitted_for arch) new.
Proof.
  unfold _run_archetype.
  destruct (for_each _ _ _) as [st|] eqn:Hloop; simpl; [|done].
  intros [= <-]. revert Hloop.
  apply (for_each_invariant
    (λ st, ∃ new, st.2 = records ++ new ∧ Forall (emitted_for arch) new)).
  - intros [prev recs] [i sname] [prev' recs'] _ (new & Hrecs & Hnew) Hstage.
    simpl in Hrecs. subst recs.
    apply run_stage_records in Hstage as (new' & -> & Hnew').
    exists (new ++ new'). simpl. split; [by rewrite app_assoc|].
    apply Forall_app. split; [done|].
    eapply Forall_impl; [exact Hnew'|]. by intros r [? _].
  - exists []. simpl. by rewrite app_nil_r.
Qed.

Lemma run_archetype_total (cfg : ModelConfig num) (arch : Archetype num)
    (arch_projects : num) (idx : list Z) (utilization : num)
    (records : list (MonthlyRecord num)) :
  (intake_spread_months cfg ≤ 12)%Z →
  ∃ out,
    _run_archetype cfg arch arch_projects idx utilization records = Ok out.
Proof.
  intros Hism. unfold _run_archetype.
  edestruct (for_each_total (enumerate (pipeline_stages cfg))
    (run_stage cfg arch arch_projects idx utilization) (None, records))
    as [st ->].
  - intros st ix _. by apply run_stage_total.
  - simpl. by eexists.
Qed.

Lemma month_index_total (cfg : ModelConfig num) :
  month_index cfg
  = Ok (date_range (12 * start_year cfg)
          (12 * end_year cfg + 11 + tail_months_of cfg)).
Proof.
  unfold month_index, Timestamp, first_of_month. simpl. do 2 f_equal; lia.
Qed.

(** Every row of the monthly table was emitted for an archetype of the
    configuration. *)
Lemma run_rows (cfg : ModelConfig num) (out : RunOutput num) :
  run cfg = Ok out →
  Forall (λ r, ∃ arch, arch ∈ archetypes cfg ∧ emitted_for arch r)
    (run_monthly out).
Proof.
  unfold run. destruct (_projects_per_year cfg) as [total_proj|]; [|done].
  rewrite month_index_total. simpl.
  destruct (for_each _ _ _) as [records|] eqn:Hloop; simpl; [|done].
  intros [= <-]. simpl. revert Hloop.
  apply (for_each_invariant (λ recs, Forall (λ r : MonthlyRecord num,
    ∃ arch, arch ∈ archetypes cfg ∧ emitted_for arch r) recs)); [|done].
  intros recs arch recs' Harch Hrecs Ha.
  apply run_archetype_appends in Ha as (new & -> & Hnew).
  apply Forall_app. split; [done|].
  eapply Forall_impl; [exact Hnew|]. intros r Hr. by exists arch.
Qed.

(** The engine returns whenever the intake window is at most twelve months
    and the projects-per-year computation returns. *)
Lemma run_total (cfg : ModelConfig num) (p : num) :
  _projects_per_year cfg = Ok p →
  (intake_spread_months cfg ≤ 12)%Z →
  ∃ out, run cfg = Ok out ∧ run_projects_per_year out = p.
Proof.
  intros Hp Hism. unfold run. rewrite Hp, month_index_total. simpl.
  match goal with
  | |- context [for_each ?l ?b ?s] =>
      destruct (for_each_total l b s) as [records ->]
  end.
  - intros recs arch _. by apply run_archetype_total.
  - simpl. by eexists.
Qed.

Lemma enumerate_split {A : Type} (pre rest : list A) (x : A) :
  enumerate (pre ++ x :: rest)
  = enumerate pre ++ (length pre, x) :: enumerate_from (S (length pre)) rest.
Proof.
  unfold enumerate, enumerate_from. rewrite imap_app, imap_cons.
  f_equal. f_equal; [f_equal; lia|].
  apply imap_ext. intros i y _. simpl. f_equal. lia.
Qed.

(** C7: a stage the archetype has no parameters for emits no record and
    discards the completions handed to it, so the stages after the gap run
    from an undefined [prev_completions], with which a start series
    receives no converted inflow: nothing is carried through the gap. *)
Theorem severed_conversion_chain (cfg : ModelConfig num) (arch : Archetype num)
    (arch_projects : num) (idx : list Z) (utilization : num)
    (pre rest : list string) (gap : string) :
  pipeline_stages cfg = pre ++ gap :: rest →
  stages arch !! gap = None →
  let body := run_stage cfg arch arch_projects idx utilization in
  (∀ prev records, body (prev, records) (length pre, gap) = Ok (None, records))
  ∧ (∀ records out,
       _run_archetype cfg arch arch_projects idx utilization records = Ok out →
       ∃ new, out = records ++ new ∧ Forall (λ r, rec_stage r ≠ gap) new)
  ∧ (∀ records,
       _run_archetype cfg arch arch_projects idx utilization records
       = (before ← for_each (enumerate pre) body (None, records);
          after ← for_each (enumerate_from (S (length pre)) rest) body
                    (None, before.2);
          Ok after.2))
  ∧ (∀ i starts, add_converted cfg i None starts = starts).
Proof.
  intros Hstages Hgap body. split; [|split; [|split; [|done]]].
  - intros prev records. unfold body, run_stage. by rewrite Hgap.
  - intros records out Hrun.
    apply run_archetype_appends in Hrun as (new & -> & Hnew).
    exists new. split; [done|]. eapply Forall_impl; [exact Hnew|].
    intros r (_ & Hsome & _) Heq. rewrite Heq, Hgap in Hsome.
    by destruct Hsome.
  - intros records. unfold _run_archetype. fold body.
    rewrite Hstages, enumerate_split, for_each_app.
    destruct (for_each (enumerate pre) body (None, records))
      as [[prev recs]|]; simpl; [|done].
    unfold body at 1, run_stage. by rewrite Hgap.
Qed.



(** [run_model] returns what [run] returns, with the two aggregations of its
    monthly table. *)
Lemma run_model_unfold (cfg : ModelConfig num) (res : ModelResult num) :
  run_model cfg = Ok res →
  ∃ out, run cfg = Ok out
         ∧ monthly res = run_monthly out
         ∧ projects_per_year res = run_projects_per_year out
         ∧ annual_summary res = _build_annual_summary (run_monthly out) cfg
         ∧ (steady_state_avg res, steady_state_min_month res,
            steady_state_max_month res)
           = _steady_state (run_monthly out) cfg.
Proof.
  unfold run_model. destruct (run cfg) as [out|]; simpl; [|done].
  destruct (_steady_state _ _) as [[ss_avg ss_min] ss_max] eqn:Hss.
  intros [= <-]. exists out. simpl. by rewrite Hss.
Qed.

End Runner.

(** ** Exact arithmetic *)

Section Exact.
Local Open Scope Q_scope.

Lemma Qltb_lt (a b : Q) : Qltb a b = true ↔ a < b.
Proof.
  unfold Qltb. rewrite negb_true_iff, <- not_true_iff_false, Qle_bool_iff.
  split; [apply Qnot_le_lt | apply Qlt_not_le].
Qed.

Lemma Qltb_ge (a b : Q) : Qltb a b = false ↔ b <= a.
Proof. unfold Qltb. by rewrite negb_false_iff, Qle_bool_iff. Qed.

(** The guard [wc <= 0] leaves a positive, hence non-zero, divisor. *)
Lemma truediv_guarded (a b : Q) :
  Qle_bool b 0 = false → truediv a b = Ok (a / b).
Proof.
  intros Hb. unfold truediv. simpl.
  destruct (Qeq_bool b 0) eqn:Heq; [|done].
  apply Qeq_bool_iff in Heq. apply not_true_iff_false in Hb.
  exfalso. apply Hb. apply Qle_bool_iff. rewrite Heq. apply Qle_refl.
Qed.

Lemma projects_per_year_returns (cfg : ModelConfig Q) :
  _projects_per_year cfg
  = Ok (if Qle_bool (_weighted_cost_per_project cfg) 0 then 0
        else _available_budget cfg / _weighted_cost_per_project cfg).
Proof.
  unfold _projects_per_year. simpl.
  destruct (Qle_bool _ 0) eqn:Hwc; [done|]. by apply truediv_guarded.
Qed.

(** With no positive mix no stage contributes, so the weighted cost is
    zero. *)
Lemma weighted_cost_no_mix (cfg : ModelConfig Q) :
  (∀ sname, default 0 (stage_mix cfg !! sname) <= 0) →
  _weighted_cost_per_project cfg == 0.
Proof.
  intros Hmix. unfold _weighted_cost_per_project.
  assert (∀ arch l, fold_left (λ (arch_cost : Q) '(i, sname),
      let mix := default fzero (stage_mix cfg !! sname) in
      if flt fzero mix && bool_decide (is_Some (stages arch !! sname))
      then fadd arch_cost (fmul mix (_expected_cost_from_stage arch
             (pipeline_stages cfg) (stage_conversion_rates cfg) i))
      else arch_cost) l 0 = 0) as Hinner.
  { intros arch l. induction l as [|[i sname] l IH]; simpl; [done|].
    destruct (Qltb 0 _) eqn:Hlt; simpl; [|exact IH].
    apply Qltb_lt in Hlt. specialize (Hmix sname). simpl in Hmix.
    exfalso. by eapply Qlt_not_le. }
  generalize (archetypes cfg). intros archs.
  assert (∀ total, total == 0 → fold_left (λ (total : Q) arch,
      fadd total (fmul (portfolio_share arch)
        (fold_left (λ (arch_cost : Q) '(i, sname),
           let mix := default fzero (stage_mix cfg !! sname) in
           if flt fzero mix && bool_decide (is_Some (stages arch !! sname))
           then fadd arch_cost (fmul mix (_expected_cost_from_stage arch
                  (pipeline_stages cfg) (stage_conversion_rates cfg) i))
           else arch_cost) (enumerate (pipeline_stages cfg)) fzero)))
      archs total == 0) as Houter.
  { induction archs as [|a archs IH]; intros total Ht; simpl; [done|].
    apply IH. change (@fzero Q Q_num) with 0. rewrite Hinner, Ht. ring. }
  by apply Houter.
Qed.

(** C8: the projects-per-year figure is the net budget over the weighted
    cost per project, the net budget being the gross budget times one minus
    the overhead fraction; when the weighted cost is not positive (as with
    no archetype or no positive mix) it is 0 and nothing is raised, and a full
    overhead gives a net budget of 0 and 0 projects per year. *)
Theorem projects_per_year_spec (cfg : ModelConfig Q) :
  let net_budget := total_budget_m cfg * (1 - overhead_pct cfg) in
  let wc := _weighted_cost_per_project cfg in
  _available_budget cfg = net_budget
  ∧ (∃ p, _projects_per_year cfg = Ok p
          ∧ (0 < wc → p = net_budget / wc)
          ∧ (wc <= 0 → p = 0)
          ∧ (overhead_pct cfg == 1 → net_budget == 0 ∧ p == 0))
  ∧ (archetypes cfg = [] → wc = 0)
  ∧ ((∀ sname, default 0 (stage_mix cfg !! sname) <= 0) → wc == 0).
Proof.
  intros net_budget wc. split; [done|]. split; [|split].
  - eexists. split; [apply projects_per_year_returns|]. fold wc.
    change (_available_budget cfg) with net_budget.
    assert (overhead_pct cfg == 1 → net_budget == 0) as Hnet.
    { intros Hov. unfold net_budget. rewrite Hov. ring. }
    destruct (Qle_bool wc 0) eqn:Hwc.
    + apply Qle_bool_iff in Hwc. split; [|split].
      * intros Hpos. exfalso. by eapply Qlt_not_le.
      * done.
      * intros Hov. split; [by apply Hnet | done].
    + assert (0 < wc) as Hpos.
      { apply Qnot_le_lt. intros Hle. apply Qle_bool_iff in Hle. congruence. }
      split; [done|]. split.
      * intros Hle. exfalso. by eapply Qlt_not_le.
      * intros Hov. split; [by apply Hnet|].
        rewrite (Hnet Hov). unfold Qdiv. ring.
  - unfold wc, _weighted_cost_per_project. by intros ->.
  - apply weighted_cost_no_mix.
Qed.

Lemma inject_Z_pos (z : Z) : (0 < z)%Z → 0 < inject_Z z.
Proof. intros Hz. change 0 with (inject_Z 0). by rewrite <- Zlt_Qlt. Qed.

(** While the ramp lasts the factor is the fraction [(k + 1) / r]; from the
    offset [r - 1] on it is 1. *)
Lemma ramp_factor_rising (k r : Z) :
  (0 < r)%Z → (k + 1 < r)%Z →
  ramp_factor k r = inject_Z (k + 1) / inject_Z r.
Proof.
  intros Hr Hk. unfold ramp_factor, fmin. simpl.
  assert (Qltb (inject_Z (k + 1) / inject_Z r) 1 = true) as ->; [|done].
  apply Qltb_lt. apply Qlt_shift_div_r; [by apply inject_Z_pos|].
  rewrite Qmult_1_l. by rewrite <- Zlt_Qlt.
Qed.

Lemma ramp_factor_full (k r : Z) :
  (0 < r)%Z → (r ≤ k + 1)%Z → ramp_factor k r = 1.
Proof.
  intros Hr Hk. unfold ramp_factor, fmin. simpl.
  assert (Qltb (inject_Z (k + 1) / inject_Z r) 1 = false) as ->; [|done].
  apply Qltb_ge. apply Qle_shift_div_l; [by apply inject_Z_pos|].
  rewrite Qmult_1_l. by rewrite <- Zle_Qle.
Qed.

Lemma ramp_factor_increasing (k k' r : Z) :
  (0 ≤ k)%Z → (k < k')%Z → (k' ≤ r - 1)%Z →
  ramp_factor k r < ramp_factor k' r.
Proof.
  intros Hk Hkk' Hk'. rewrite (ramp_factor_rising k r) by lia.
  assert (0 < / inject_Z r) as Hinv.
  { apply Qinv_lt_0_compat. apply inject_Z_pos. lia. }
  destruct (Z.eq_dec (k' + 1)%Z r) as [Heq|Hne].
  - rewrite ramp_factor_full by lia.
    apply Qlt_shift_div_r; [apply inject_Z_pos; lia|].
    rewrite Qmult_1_l, <- Zlt_Qlt. lia.
  - rewrite (ramp_factor_rising k' r) by lia.
    unfold Qdiv. apply Qmult_lt_compat_r; [done|].
    rewrite <- Zlt_Qlt. lia.
Qed.

(** C5: a single start cohort of non-negligible size [n] at month [m], with
    a ramp of [r > 1] months and a duration of at least [r] months, has an
    active contribution that strictly increases over the offsets 0 to
    [r - 1] and equals [n] at every offset from [r - 1] to
    [duration - 1]. *)
Theorem ramp_monotonicity (idx : list Z) (s1 s2 : Series Q) (m : Z) (n : Q)
    (r duration : Z) :
  Forall (λ e, non_negligible e.2 = false) s1 →
  Forall (λ e, non_negligible e.2 = false) s2 →
  (1 # 1000000000) <= n →
  (1 < r)%Z → (r ≤ duration)%Z →
  let active := _active_stock (s1 ++ (m, n) :: s2) duration idx r in
  (∀ k k', (0 ≤ k)%Z → (k < k')%Z → (k' ≤ r - 1)%Z →
     (m + k)%Z ∈ idx → (m + k')%Z ∈ idx →
     loc active (m + k) < loc active (m + k'))
  ∧ (∀ k, (r - 1 ≤ k)%Z → (k ≤ duration - 1)%Z → (m + k)%Z ∈ idx →
       loc active (m + k) == n).
Proof.
  intros Hs1 Hs2 Hn Hr Hdur active.
  assert (non_negligible n = true) as Hnn.
  { unfold non_negligible. apply negb_true_iff. by apply Qltb_ge. }
  assert (0 < n) as Hpos by (eapply Qlt_le_trans; [|exact Hn]; done).
  split.
  - intros k k' Hk Hkk' Hk' Hin Hin'. unfold active.
    rewrite !single_cohort_active by (done || lia). simpl.
    rewrite !Qplus_0_l. apply Qmult_lt_l; [done|].
    by apply ramp_factor_increasing.
  - intros k Hk Hk' Hin. unfold active.
    rewrite single_cohort_active by (done || lia). simpl.
    rewrite ramp_factor_full by lia. ring.
Qed.

(** C6: in a two-stage pipeline with conversion rate [c] on the first stage,
    the start series of stage 2 is its direct intake plus [c] times the
    completions of stage 1, and the completions of a month are the stage-1
    starts placed exactly [duration_months] of stage 1 earlier; what would
    land outside the month index is dropped. *)
Theorem conversion_conservation (cfg : ModelConfig Q) (arch : Archetype Q)
    (arch_projects : Q) (idx : list Z) (utilization : Q)
    (records : list (MonthlyRecord Q)) (s1 s2 : string)
    (sp1 sp2 : StageParams Q) :
  pipeline_stages cfg = [s1; s2] →
  stages arch !! s1 = Some sp1 →
  stages arch !! s2 = Some sp2 →
  (intake_spread_months cfg ≤ 12)%Z →
  0 <= default 0 (stage_conversion_rates cfg !! s1) →
  let c := default 0 (stage_conversion_rates cfg !! s1) in
  let dur1 := duration_months sp1 in
  ∃ starts1 direct2 starts2 records1,
    stage_starts cfg arch_projects idx 0 s1 None = Ok starts1
    ∧ run_stage cfg arch arch_projects idx utilization (None, records)
        (0%nat, s1)
      = Ok (Some (stage_completions starts1 dur1 idx), records1)
    ∧ stage_starts cfg arch_projects idx 1 s2 None = Ok direct2
    ∧ stage_starts cfg arch_projects idx 1 s2
        (Some (stage_completions starts1 dur1 idx)) = Ok starts2
    ∧ _run_archetype cfg arch arch_projects idx utilization records
      = Ok (emit_records arch s2 sp2 utilization
              (_active_stock starts2 (duration_months sp2) idx
                 (ramp_months cfg)) idx records1)
    ∧ index starts2 = idx
    ∧ ∀ m', m' ∈ idx →
        loc (stage_completions starts1 dur1 idx) m'
        = completions_at starts1 dur1 m'
        ∧ loc starts2 m'
          == loc direct2 m' + c * completions_at starts1 dur1 m'.
Proof.
  intros Hstages Hsp1 Hsp2 Hism Hc c dur1.
  destruct (stage_starts_total cfg arch_projects idx 0 s1 None Hism)
    as [starts1 Hstarts1].
  destruct (stage_starts_total cfg arch_projects idx 1 s2 None Hism)
    as [direct2 Hdirect2].
  pose proof (stage_starts_converted cfg arch_projects idx 1 s2
    (Some (stage_completions starts1 dur1 idx)) direct2 Hdirect2) as Hstarts2.
  eexists starts1, direct2, _, _. split; [done|]. split.
  { unfold run_stage. rewrite Hsp1, Hstarts1. simpl. done. }
  split; [done|]. split; [exact Hstarts2|]. split.
  { unfold _run_archetype. rewrite Hstages. simpl.
    rewrite Hsp1, Hstarts1. simpl. fold dur1.
    rewrite Hsp2, Hstarts2. done. }
  split.
  { by apply stage_starts_index in Hstarts2. }
  intros m' Hm'. rewrite stage_completions_closed. split.
  { by rewrite (loc_tabulate (λ l, completions_at starts1 dur1 l)). }
  assert (m' ∈ index direct2) as Hm'd.
  { by rewrite (stage_starts_index _ _ _ _ _ _ _ Hdirect2). }
  unfold add_converted. rewrite Hstages. simpl. fold c.
  destruct (Qltb 0 c) eqn:Hlt.
  - unfold loc, series_add, scale.
    rewrite (loc_or_pointwise 0 (λ l v, v + loc_or 0
      (map (λ p : Z * Q, (p.1, p.2 * c))
         (map (λ l, (l, completions_at starts1 dur1 l)) idx)) l)%Q)
      by done.
    rewrite map_map. simpl.
    rewrite (loc_or_tabulate 0 (λ l, completions_at starts1 dur1 l * c)%Q)
      by done.
    ring.
  - apply Qltb_ge in Hlt. assert (c == 0) as Hc0 by by apply Qle_antisym.
    rewrite Hc0. ring.
Qed.

(** C10: every row of the monthly table returned by [run] and by
    [run_model] has at least 1e-9 effective projects, hence a strictly
    positive number of them; and the engine does return when the intake
    window is at most twelve months. *)
Theorem monthly_rows_non_negligible (cfg : ModelConfig Q) :
  (∀ out, run cfg = Ok out →
     Forall (λ r, (1 # 1000000000) <= effective_projects r
                  ∧ 0 < effective_projects r) (run_monthly out))
  ∧ (∀ res, run_model cfg = Ok res →
       Forall (λ r, (1 # 1000000000) <= effective_projects r
                    ∧ 0 < effective_projects r) (monthly res))
  ∧ ((intake_spread_months cfg ≤ 12)%Z → ∃ res, run_model cfg = Ok res).
Proof.
  assert (∀ out, run cfg = Ok out →
     Forall (λ r, (1 # 1000000000) <= effective_projects r
                  ∧ 0 < effective_projects r) (run_monthly out)) as Hrun.
  { intros out Hout. apply run_rows in Hout.
    eapply Forall_impl; [exact Hout|].
    intros r (arch & _ & _ & _ & Hn). simpl in Hn. apply Qltb_ge in Hn.
    split; [done|]. eapply Qlt_le_trans; [|exact Hn]. done. }
  split; [exact Hrun|]. split.
  - intros res Hres. apply run_model_unfold in Hres as (out & Hout & -> & _).
    by apply Hrun.
  - intros Hism.
    destruct (run_total cfg _ (projects_per_year_returns cfg) Hism)
      as (out & Hout & _).
    unfold run_model. rewrite Hout. simpl.
    destruct (_steady_state _ _) as [[? ?] ?]. by eexists.
Qed.

End Exact.

Section Aggregation.
Context {num : Type} `{PyNum num}.
Local Open Scope py_scope.

Lemma group_add_keys (k : Z) (v : num * num * num)
    (g : list (Z * (num * num * num))) (m : Z) :
  m ∈ map fst (group_add k v g) ↔ m = k ∨ m ∈ map fst g.
Proof.
  induction g as [|[k' v'] g IH]; simpl.
  - rewrite list_elem_of_singleton. split; [by left|].
    intros [?|?%elem_of_nil]; done.
  - destruct (Z.ltb_spec k k'); [simpl; by rewrite !elem_of_cons|].
    destruct (Z.eqb_spec k k') as [->|Hne].
    + destruct v as [[t r] d], v' as [[t' r'] d']. simpl.
      rewrite !elem_of_cons. tauto.
    + simpl. rewrite !elem_of_cons, IH. tauto.
Qed.

Lemma group_add_sorted (k : Z) (v : num * num * num)
    (g : list (Z * (num * num * num))) :
  StronglySorted Z.lt (map fst g) →
  StronglySorted Z.lt (map fst (group_add k v g)).
Proof.
  induction g as [|[k' v'] g IH]; simpl; intros Hs.
  - by repeat constructor.
  - apply StronglySorted_inv in Hs as [Hs Hall].
    destruct (Z.ltb_spec k k').
    + simpl. constructor; [by constructor|].
      constructor; [done|]. eapply Forall_impl; [exact Hall|].
      intros z Hz. simpl in *. lia.
    + destruct (Z.eqb_spec k k') as [->|Hne].
      * destruct v as [[t r] d], v' as [[t' r'] d']. simpl. by constructor.
      * simpl. constructor; [by apply IH|].
        apply Forall_forall. intros z Hz%group_add_keys.
        destruct Hz as [->|Hz]; [simpl; lia|].
        rewrite Forall_forall in Hall. by apply Hall.
Qed.

(** Where the entries of a group table come from when a record of month [k]
    is added. *)
Lemma group_add_entries (k : Z) (v : num * num * num)
    (g : list (Z * (num * num * num))) (m : Z) (w : num * num * num) :
  StronglySorted Z.lt (map fst g) →
  (m, w) ∈ group_add k v g →
  (m ≠ k ∧ (m, w) ∈ g)
  ∨ (m = k ∧ (k ∉ map fst g) ∧ w = v)
  ∨ (m = k ∧ ∃ w0, (k, w0) ∈ g ∧ w = triple_add w0 v).
Proof.
  induction g as [|[k' v'] g IH]; simpl; intros Hs.
  - intros [= -> ->]%list_elem_of_singleton. right. left.
    split; [done|]. split; [apply not_elem_of_nil|done].
  - apply StronglySorted_inv in Hs as [Hs Hall].
    rewrite Forall_forall in Hall.
    assert (∀ z, z ∈ map fst g → (k' < z)%Z) as Hkeys.
    { intros z Hz. by apply Hall. }
    assert (∀ z u, (z, u) ∈ g → (k' < z)%Z) as Hlater.
    { intros z u Hzu. apply Hkeys. apply list_elem_of_fmap. by exists (z, u). }
    destruct (Z.ltb_spec k k').
    + intros [[= -> ->]|Hin]%elem_of_cons.
      * right. left. split; [done|]. split; [|done].
        intros Hk%elem_of_cons. simpl in Hk.
        destruct Hk as [->|Hk]; [lia|]. apply Hkeys in Hk. lia.
      * left. split; [|done]. apply elem_of_cons in Hin as [[= -> ->]|Hin].
        -- lia.
        -- apply Hlater in Hin. lia.
    + destruct (Z.eqb_spec k k') as [->|Hne].
      * destruct v as [[t r] d], v' as [[t' r'] d']. simpl.
        intros [[= -> ->]|Hin]%elem_of_cons.
        -- right. right. split; [done|]. exists (t', r', d'). split; [apply list_elem_of_here|done].
        -- left. split; [|by apply list_elem_of_further]. apply Hlater in Hin. lia.
      * intros [[= -> ->]|Hin]%elem_of_cons.
        -- left. split; [lia|apply list_elem_of_here].
        -- apply (IH Hs) in Hin
             as [[? ?]|[(-> & Hk & ->)|(-> & w0 & Hw0 & ->)]].
           ++ left. split; [done|by apply list_elem_of_further].
           ++ right. left. split; [done|]. split; [|done].
              intros Hk'%elem_of_cons.
              simpl in Hk'. by destruct Hk' as [?|?].
           ++ right. right. split; [done|]. exists w0. split; [by apply list_elem_of_further|done].
Qed.

Lemma groupby_month_snoc (data : list (MonthlyRecord num))
    (r : MonthlyRecord num) :
  groupby_month (data ++ [r])
  = group_add (rec_month r)
      (rec_fte_total r, rec_fte_research r, rec_fte_developer r)
      (groupby_month data).
Proof. unfold groupby_month. by rewrite fold_left_app. Qed.

Lemma of_month_snoc (data : list (MonthlyRecord num)) (r : MonthlyRecord num)
    (m : Z) :
  of_month (data ++ [r]) m
  = of_month data m ++ (if (rec_month r =? m)%Z then [r] else []).
Proof. unfold of_month. by rewrite List.filter_app. Qed.

Lemma sum_from_first_snoc (l : list num) (x : num) :
  l ≠ [] → sum_from_first (l ++ [x]) = sum_from_first l + x.
Proof.
  destruct l as [|y l]; [done|]. intros _. simpl. by rewrite fold_left_app.
Qed.

Lemma of_month_nonempty (data : list (MonthlyRecord num)) (m : Z) :
  of_month data m ≠ [] ↔ ∃ r, r ∈ data ∧ rec_month r = m.
Proof.
  unfold of_month. split.
  - destruct (List.filter _ data) as [|r l] eqn:Hf; [done|]. intros _.
    assert (In r (List.filter (λ r, (rec_month r =? m)%Z) data)) as Hin
      by (rewrite Hf; left; done).
    apply filter_In in Hin as [Hin Hm]. exists r.
    split; [by apply list_elem_of_In | by apply Z.eqb_eq].
  - intros (r & Hin & Hm) Hnil.
    assert (In r (List.filter (λ r, (rec_month r =? m)%Z) data)) as Hf.
    { apply filter_In. split; [by apply list_elem_of_In | by apply Z.eqb_eq]. }
    by rewrite Hnil in Hf.
Qed.

(** [groupby("month")] has one entry per month present, in increasing
    order, and the entry of a month holds the sums of its records. *)
Lemma groupby_month_spec (data : list (MonthlyRecord num)) :
  StronglySorted Z.lt (map fst (groupby_month data))
  ∧ (∀ m, m ∈ map fst (groupby_month data) ↔ of_month data m ≠ [])
  ∧ (∀ m w, (m, w) ∈ groupby_month data → w = month_sums data m).
Proof.
  induction data as [|r data (Hsorted & Hkeys & Hsums)] using rev_ind.
  - split; [constructor|]. split; [|by intros m w ?%elem_of_nil].
    intros m. simpl. split; [by intros ?%elem_of_nil | done].
  - rewrite groupby_month_snoc.
    set (k := rec_month r).
    set (v := (rec_fte_total r, rec_fte_research r, rec_fte_developer r)).
    assert (∀ m, of_month (data ++ [r]) m ≠ []
                 ↔ m = k ∨ of_month data m ≠ []) as Hsnoc.
    { intros m. rewrite of_month_snoc. fold k.
      destruct (Z.eqb_spec k m) as [->|Hne].
      - split; [by left|]. intros _. by destruct (of_month data m).
      - rewrite app_nil_r. split; [by right|]. by intros [->|?]. }
    split; [by apply group_add_sorted|]. split.
    + intros m. rewrite group_add_keys, Hsnoc, Hkeys. done.
    + intros m w Hin.
      apply group_add_entries in Hin
        as [[Hne Hin]|[(-> & Hk & ->)|(-> & w0 & Hw0 & ->)]]; [| | |done].
      * apply Hsums in Hin as ->. unfold month_sums.
        rewrite of_month_snoc. fold k.
        destruct (Z.eqb_spec k m) as [->|_]; [done|]. by rewrite app_nil_r.
      * assert (of_month data k = []) as Hnil.
        { destruct (of_month data k) eqn:Hd; [done|]. exfalso.
          apply Hk, Hkeys. by rewrite Hd. }
        unfold month_sums. rewrite of_month_snoc, Hnil. fold k.
        by rewrite Z.eqb_refl.
      * assert (of_month data k ≠ []) as Hne.
        { apply Hkeys. apply list_elem_of_fmap. by exists (k, w0). }
        apply Hsums in Hw0 as ->. unfold month_sums.
        rewrite of_month_snoc. fold k. rewrite Z.eqb_refl.
        rewrite !map_app. simpl.
        rewrite !sum_from_first_snoc; [done| | |];
          by destruct (of_month data k).
Qed.

Lemma groupby_month_tabulate (data : list (MonthlyRecord num)) :
  groupby_month data
  = map (λ m, (m, month_sums data m)) (map fst (groupby_month data)).
Proof.
  destruct (groupby_month_spec data) as (_ & _ & Hsums).
  revert Hsums. generalize (groupby_month data) as g.
  induction g as [|[m w] g IH]; intros Hsums; simpl; [done|].
  rewrite <- IH.
  - f_equal. f_equal. apply Hsums. apply list_elem_of_here.
  - intros m' w' Hin. apply Hsums. by apply list_elem_of_further.
Qed.

Lemma fold_left_snoc_map {A B : Type} (f : A → B) (l : list A) (acc : list B) :
  fold_left (λ rows x, rows ++ [f x]) l acc = acc ++ map f l.
Proof.
  revert acc. induction l as [|x l IH]; intros acc; simpl.
  - by rewrite app_nil_r.
  - by rewrite IH, <- app_assoc.
Qed.

(** The row of a year: zeros when the year has no record, otherwise the
    rounded statistics of the per-month sums over the months present. *)
Lemma annual_row_spec (monthly_ : list (MonthlyRecord num)) (yr : Z) :
  let yr_data := of_year monthly_ yr in
  Year (annual_row monthly_ yr) = yr
  ∧ (yr_data = [] → annual_row monthly_ yr = zero_row yr)
  ∧ (yr_data ≠ [] →
       ∃ months,
         StronglySorted Z.lt months
         ∧ (∀ m, m ∈ months ↔ ∃ r, r ∈ yr_data ∧ rec_month r = m)
         ∧ annual_row monthly_ yr = stats_row yr_data months yr).
Proof.
  intros yr_data. unfold annual_row. fold yr_data.
  destruct yr_data as [|r rest] eqn:Hdata; [done|].
  split; [done|]. split; [done|]. intros _.
  destruct (groupby_month_spec (r :: rest)) as (Hsorted & Hkeys & _).
  exists (map fst (groupby_month (r :: rest))).
  split; [done|]. split.
  { intros m. by rewrite Hkeys, of_month_nonempty. }
  unfold stats_row, col_total, col_research, col_developer.
  rewrite (groupby_month_tabulate (r :: rest)) at 1 2 3 4 5.
  by rewrite !map_map.
Qed.

(** C3 (amended): when the monthly table is empty the annual summary is
    empty; otherwise it has exactly one row per calendar year of
    [[start_year, end_year]], in that order, a year without records giving an
    all-zero row and a year with records the mean, minimum and maximum of the
    per-month sums of [fte_total] and the means of the per-month sums of the
    research and developer FTE, all five rounded to one decimal. *)
Theorem annual_summary_rows (cfg : ModelConfig num) (r0 : MonthlyRecord num)
    (rest : list (MonthlyRecord num)) :
  let monthly_ := r0 :: rest in
  let years := range (start_year cfg) (end_year cfg + 1) in
  (∀ res, run_model cfg = Ok res →
     annual_summary res = _build_annual_summary (monthly res) cfg)
  ∧ _build_annual_summary [] cfg = []
  ∧ map Year (_build_annual_summary monthly_ cfg) = years
  ∧ _build_annual_summary monthly_ cfg = map (annual_row monthly_) years
  ∧ ∀ yr,
      let yr_data := of_year monthly_ yr in
      (yr_data = [] → annual_row monthly_ yr = zero_row yr)
      ∧ (yr_data ≠ [] →
           ∃ months,
             StronglySorted Z.lt months
             ∧ (∀ m, m ∈ months ↔ ∃ r, r ∈ yr_data ∧ rec_month r = m)
             ∧ annual_row monthly_ yr = stats_row yr_data months yr).
Proof.
  intros monthly_ years.
  assert (_build_annual_summary monthly_ cfg = map (annual_row monthly_) years)
    as Hrows.
  { unfold _build_annual_summary. simpl. by rewrite fold_left_snoc_map. }
  split.
  { by intros res (out & _ & -> & _ & -> & _)%run_model_unfold. }
  split; [done|]. split; [|split; [exact Hrows|]].
  - rewrite Hrows, map_map. rewrite <- (map_id years) at 2.
    apply map_ext. intros yr. apply annual_row_spec.
  - intros yr. apply annual_row_spec.
Qed.

End Aggregation.

Section Suppression.
Context {num : Type} `{PyNum num}.
Local Open Scope py_scope.

(** A loop that skips the negligible events is the same loop over the
    non-negligible events. *)
Lemma skip_negligible {S : Type} (F : S → Z * num → S) (starts : Series num)
    (acc : S) :
  fold_left (λ acc e, if e.2 <? lit_1e_9 then acc else F acc e) starts acc
  = fold_left (λ acc e, if e.2 <? lit_1e_9 then acc else F acc e)
      (List.filter (λ e, non_negligible e.2) starts) acc.
Proof.
  revert acc. induction starts as [|[dt n] starts IH]; intros acc; [done|].
  simpl. unfold non_negligible at 1. simpl.
  destruct (n <? lit_1e_9) eqn:Hn; simpl; [done|]. by rewrite Hn.
Qed.

Lemma active_stock_skips_negligible (starts : Series num) (duration : Z)
    (idx : list Z) (ramp_months : Z) :
  _active_stock starts duration idx ramp_months
  = _active_stock (List.filter (λ e, non_negligible e.2) starts)
      duration idx ramp_months.
Proof.
  unfold _active_stock.
  destruct (duration <=? 0)%Z; [done|]. destruct (ramp_months <=? 0)%Z.
  - rewrite !(fold_left_ext_body
      (λ active '(dt, n), if n <? lit_1e_9 then active
                          else mask_add active dt (dt + duration) n)
      (λ acc e, if e.2 <? lit_1e_9 then acc
                else mask_add acc e.1 (e.1 + duration) e.2))
      by (by intros a [dt n]).
    apply (skip_negligible (λ acc e, mask_add acc e.1 (e.1 + duration) e.2)).
  - set (inner := λ (active : Series num) (e : Z * num),
      fold_left (λ active m,
        let m_dt := (e.1 + m)%Z in
        if contains (index active) m_dt then
          let factor := ramp_factor m ramp_months in
          loc_add active m_dt (e.2 * factor)
        else active) (range 0 duration) active).
    rewrite !(fold_left_ext_body
      (λ active '(dt, n), if n <? lit_1e_9 then active
         else fold_left (λ active m,
                let m_dt := (dt + m)%Z in
                if contains (index active) m_dt then
                  let factor := ramp_factor m ramp_months in
                  loc_add active m_dt (n * factor)
                else active) (range 0 duration) active)
      (λ acc e, if e.2 <? lit_1e_9 then acc else inner acc e))
      by (by intros a [dt n]).
    apply (skip_negligible inner).
Qed.

Lemma stage_completions_skips_negligible (starts : Series num) (dur : Z)
    (idx : list Z) :
  stage_completions starts dur idx
  = stage_completions (List.filter (λ e, non_negligible e.2) starts) dur idx.
Proof.
  unfold stage_completions.
  set (place := λ (this_completions : Series num) (e : Z * num),
    let comp_dt := (e.1 + dur)%Z in
    if contains (index this_completions) comp_dt
    then loc_add this_completions comp_dt e.2 else this_completions).
  rewrite !(fold_left_ext_body
    (λ this_completions '(dt, n),
       if n <? lit_1e_9 then this_completions
       else
         let comp_dt := (dt + dur)%Z in
         if contains (index this_completions) comp_dt
         then loc_add this_completions comp_dt n
         else this_completions)
    (λ acc e, if e.2 <? lit_1e_9 then acc else place acc e))
    by (by intros a [dt n]).
  apply (skip_negligible place).
Qed.

(** C2 (amended): values below the threshold are suppressed before the
    aggregation, not only in the presentation: the start events below 1e-9
    are skipped when the active stock and the completions are accumulated,
    the months whose active stock is below 1e-9 emit no record, and the
    annual summary is computed from the emitted records alone, each of which
    is at the threshold or above. *)
Theorem suppression_before_aggregation :
  (∀ (starts : Series num) duration idx ramp_months,
     _active_stock starts duration idx ramp_months
     = _active_stock (List.filter (λ e, non_negligible e.2) starts)
         duration idx ramp_months)
  ∧ (∀ (starts : Series num) dur idx,
       stage_completions starts dur idx
       = stage_completions (List.filter (λ e, non_negligible e.2) starts)
           dur idx)
  ∧ (∀ arch sname sp utilization (active : Series num) idx records,
       emit_records arch sname sp utilization active idx records
       = records
         ++ map (λ dt, stage_record arch sname sp utilization dt
                         (loc active dt))
              (List.filter (λ dt, non_negligible (loc active dt)) idx))
  ∧ (∀ (cfg : ModelConfig num) res,
       run_model cfg = Ok res →
       annual_summary res = _build_annual_summary (monthly res) cfg
       ∧ Forall (λ r, non_negligible (effective_projects r) = true)
           (monthly res)).
Proof.
  split; [apply active_stock_skips_negligible|].
  split; [apply stage_completions_skips_negligible|].
  split; [apply emit_records_closed|].
  intros cfg res (out & Hout & -> & _ & -> & _)%run_model_unfold.
  split; [done|]. apply run_rows in Hout.
  eapply Forall_impl; [exact Hout|].
  intros r (arch & _ & _ & _ & Hn). unfold non_negligible. by rewrite Hn.
Qed.


End Suppression.

(** ** The scenario and the degenerate configurations, evaluated *)

(** C1: on the scenario of the specification the engine computes a weighted
    cost per project of exactly 10 and exactly 10 projects per year, and its
    monthly table is: Early at 2 effective projects from January to June
    2026, Late at 8 from January to June 2026 and Late at 1 (the converted
    inflow of 2 x 0.5) from July to December 2026.  This holds in binary64
    arithmetic and in exact arithmetic. *)
Theorem scenario_expected_output :
  (_weighted_cost_per_project Scenario.config_float = 10%float
   ∧ ∃ out, run Scenario.config_float = Ok out
       ∧ run_projects_per_year out = 10%float
       ∧ Scenario.view (run_monthly out)
         = Scenario.expected_view 2%float 8%float 1%float)
  ∧ ((_weighted_cost_per_project Scenario.config_Q == 10)%Q
     ∧ ∃ out, run Scenario.config_Q = Ok out
         ∧ (run_projects_per_year out == 10)%Q
         ∧ Scenario.view_Q (run_monthly out)
           = Scenario.expected_view 2%Q 8%Q 1%Q).
Proof.
  split.
  - split; [by vm_compute|].
    destruct (run Scenario.config_float) as [out|] eqn:Hout;
      vm_compute in Hout; [|discriminate].
    injection Hout as <-. eexists. split; [reflexivity|].
    split; by vm_compute.
  - split; [by vm_compute|].
    destruct (run Scenario.config_Q) as [out|] eqn:Hout;
      vm_compute in Hout; [|discriminate].
    injection Hout as <-. eexists. split; [reflexivity|].
    split; by vm_compute.
Qed.

(** C2 fails as stated: with a ramp of four months a cohort of 2e-9 projects
    is active at 5e-10 in January 2026, worth half an FTE; that value is
    left out of the monthly table, which starts in February, and of the
    totals the annual aggregation works with. *)
Lemma suppression_loses_values :
  ∃ out all,
    run Degenerate.slow_ramp = Ok out
    ∧ run_unsuppressed Degenerate.slow_ramp = Ok all
    ∧ Scenario.view_Q (run_monthly out)
      = [(first_of_month 2026 2, "S", 1 # 1000000000);
         (first_of_month 2026 3, "S", 3 # 2000000000);
         (first_of_month 2026 4, "S", 1 # 500000000)]%Q
    ∧ hd_error (Scenario.view_Q all)
      = Some (first_of_month 2026 1, "S", (1 # 2000000000)%Q)
    ∧ (month_total (run_monthly out) (first_of_month 2026 1) == 0)%Q
    ∧ (month_total all (first_of_month 2026 1) == 1 # 2)%Q
    ∧ ¬ suppression_is_presentation_only Degenerate.slow_ramp.
Proof.
  destruct (run Degenerate.slow_ramp) as [out|] eqn:Hout;
    [|vm_compute in Hout; discriminate].
  destruct (run_unsuppressed Degenerate.slow_ramp) as [all|] eqn:Hall;
    [|vm_compute in Hall; discriminate].
  exists out, all. split; [done|]. split; [done|].
  assert ((month_total (run_monthly out) (first_of_month 2026 1) == 0)%Q)
    as Hcode.
  { vm_compute in Hout. injection Hout as <-. by vm_compute. }
  assert ((month_total all (first_of_month 2026 1) == 1 # 2)%Q) as Hspec.
  { vm_compute in Hall. injection Hall as <-. by vm_compute. }
  split. { vm_compute in Hout. injection Hout as <-. by vm_compute. }
  split. { vm_compute in Hall. injection Hall as <-. by vm_compute. }
  split; [exact Hcode|]. split; [exact Hspec|].
  intros Hstated.
  specialize (Hstated out all (first_of_month 2026 1) Hout Hall).
  rewrite Hcode, Hspec in Hstated. by vm_compute in Hstated.
Qed.

(** C3 fails as stated: with no archetype the monthly table is empty and
    the annual summary has no row at all, neither for 2026 nor for 2027. *)
Lemma empty_table_has_no_annual_rows :
  ∃ res,
    run_model Degenerate.no_archetypes = Ok res
    ∧ monthly res = []
    ∧ annual_summary res = []
    ∧ range (start_year Degenerate.no_archetypes)
        (end_year Degenerate.no_archetypes + 1) = [2026; 2027]%Z
    ∧ ¬ one_row_per_year Degenerate.no_archetypes res.
Proof.
  destruct (run_model Degenerate.no_archetypes) as [res|] eqn:Hres;
    vm_compute in Hres; [|discriminate].
  injection Hres as <-. eexists. split; [reflexivity|].
  split; [done|]. split; [done|]. split; [by vm_compute|].
  unfold one_row_per_year. by vm_compute.
Qed.

(** ** The theorems with hypotheses, at concrete inputs *)

(** The sliding window on binary64 values: starts of 8 and 1 projects in
    January and July 2026, a duration of six months, no ramp. *)
Lemma active_stock_sliding_window_witness :
  (0 ≤ 0)%Z ∧ (1 ≤ 6)%Z
  ∧ let starts : Series float :=
      [(first_of_month 2026 1, 8%float); (first_of_month 2026 7, 1%float)] in
    let active := _active_stock starts 6 Scenario.idx 0 in
    active
    = map (λ m', (m', trailing_window_sum starts 6 m')) Scenario.idx
    ∧ ∀ m', m' ∈ Scenario.idx →
        loc active m' = trailing_window_sum starts 6 m'.
Proof.
  split; [lia|]. split; [lia|].
  apply (active_stock_sliding_window (num:=float)); lia.
Defined.

(** The ramp on one cohort of one project started in month 0, with only
    empty months around it: a ramp of three months, a duration of four. *)
Lemma ramp_monotonicity_witness :
  Forall (λ e : Z * Q, non_negligible e.2 = false) []
  ∧ Forall (λ e : Z * Q, non_negligible e.2 = false) [(1, 0%Q); (2, 0%Q)]%Z
  ∧ ((1 # 1000000000) <= 1)%Q ∧ (1 < 3)%Z ∧ (3 ≤ 4)%Z
  ∧ let active :=
      _active_stock ([] ++ (0, 1%Q) :: [(1, 0%Q); (2, 0%Q)])%Z 4
        (range 0 6) 3 in
    (∀ k k', (0 ≤ k)%Z → (k < k')%Z → (k' ≤ 3 - 1)%Z →
       (0 + k)%Z ∈ range 0 6 → (0 + k')%Z ∈ range 0 6 →
       (loc active (0 + k) < loc active (0 + k'))%Q)
    ∧ (∀ k, (3 - 1 ≤ k)%Z → (k ≤ 4 - 1)%Z → (0 + k)%Z ∈ range 0 6 →
         (loc active (0 + k) == 1)%Q).
Proof.
  assert (Forall (λ e : Z * Q, non_negligible e.2 = false) []) as H1
    by constructor.
  assert (Forall (λ e : Z * Q, non_negligible e.2 = false)
            [(1, 0%Q); (2, 0%Q)]%Z) as H2
    by (repeat constructor).
  assert (((1 # 1000000000) <= 1)%Q) as H3 by (unfold Qle; simpl; lia).
  split; [exact H1|]. split; [exact H2|]. split; [exact H3|].
  split; [lia|]. split; [lia|].
  apply (ramp_monotonicity (range 0 6) [] [(1, 0%Q); (2, 0%Q)]%Z 0 1 3 4
           H1 H2 H3); lia.
Defined.

(** The conversion from Early to Late in the scenario, at rate 0.5. *)
Lemma conversion_conservation_witness :
  pipeline_stages Scenario.config_Q = ["Early"; "Late"]
  ∧ stages (Scenario.archetype (num:=Q)) !! "Early" = Some Scenario.early
  ∧ stages (Scenario.archetype (num:=Q)) !! "Late" = Some Scenario.late
  ∧ (intake_spread_months Scenario.config_Q ≤ 12)%Z
  ∧ (0 <= default 0 (stage_conversion_rates Scenario.config_Q !! "Early"))%Q
  ∧ let cfg := Scenario.config_Q in
    let arch := Scenario.archetype (num:=Q) in
    let c := default 0%Q (stage_conversion_rates cfg !! "Early") in
    let dur1 := duration_months (Scenario.early (num:=Q)) in
    ∃ starts1 direct2 starts2 records1,
      stage_starts cfg 10%Q Scenario.idx 0 "Early" None = Ok starts1
      ∧ run_stage cfg arch 10%Q Scenario.idx 1%Q (None, []) (0%nat, "Early")
        = Ok (Some (stage_completions starts1 dur1 Scenario.idx), records1)
      ∧ stage_starts cfg 10%Q Scenario.idx 1 "Late" None = Ok direct2
      ∧ stage_starts cfg 10%Q Scenario.idx 1 "Late"
          (Some (stage_completions starts1 dur1 Scenario.idx)) = Ok starts2
      ∧ _run_archetype cfg arch 10%Q Scenario.idx 1%Q []
        = Ok (emit_records arch "Late" Scenario.late 1%Q
                (_active_stock starts2 (duration_months Scenario.late)
                   Scenario.idx (ramp_months cfg)) Scenario.idx records1)
      ∧ index starts2 = Scenario.idx
      ∧ ∀ m', m' ∈ Scenario.idx →
          loc (stage_completions starts1 dur1 Scenario.idx) m'
          = completions_at starts1 dur1 m'
          ∧ (loc starts2 m'
             == loc direct2 m' + c * completions_at starts1 dur1 m')%Q.
Proof.
  assert (stages (Scenario.archetype (num:=Q)) !! "Early"
          = Some Scenario.early) as H1 by (by vm_compute).
  assert (stages (Scenario.archetype (num:=Q)) !! "Late"
          = Some Scenario.late) as H2 by (by vm_compute).
  assert ((0 <= default 0 (stage_conversion_rates Scenario.config_Q
                             !! "Early"))%Q) as H3 by (by vm_compute).
  split; [reflexivity|]. split; [exact H1|]. split; [exact H2|].
  split; [simpl; lia|]. split; [exact H3|].
  apply (conversion_conservation Scenario.config_Q Scenario.archetype 10%Q
           Scenario.idx 1%Q [] "Early" "Late" Scenario.early Scenario.late
           eq_refl H1 H2); [simpl; lia | exact H3].
Defined.

(** The scenario with the middle stage Mid, which the archetype does not
    define. *)
Lemma severed_conversion_chain_witness :
  pipeline_stages Scenario.config_gap_Q = ["Early"] ++ "Mid" :: ["Late"]
  ∧ stages (Scenario.archetype (num:=Q)) !! "Mid" = None
  ∧ let cfg := Scenario.config_gap_Q in
    let arch := Scenario.archetype (num:=Q) in
    let body := run_stage cfg arch (100 # 9)%Q Scenario.idx 1%Q in
    (∀ prev records, body (prev, records) (1%nat, "Mid") = Ok (None, records))
    ∧ (∀ records out,
         _run_archetype cfg arch (100 # 9)%Q Scenario.idx 1%Q records = Ok out →
         ∃ new, out = records ++ new
                ∧ Forall (λ r, rec_stage r ≠ "Mid") new)
    ∧ (∀ records,
         _run_archetype cfg arch (100 # 9)%Q Scenario.idx 1%Q records
         = (before ← for_each (enumerate ["Early"]) body (None, records);
            after ← for_each (enumerate_from 2 ["Late"]) body
                      (None, before.2);
            Ok after.2))
    ∧ (∀ i starts, add_converted cfg i None starts = starts).
Proof.
  assert (stages (Scenario.archetype (num:=Q)) !! "Mid" = None) as H1
    by (by vm_compute).
  split; [reflexivity|]. split; [exact H1|].
  apply (severed_conversion_chain Scenario.config_gap_Q Scenario.archetype
           (100 # 9)%Q Scenario.idx 1%Q ["Early"] ["Late"] "Mid" eq_refl H1).
Defined.

(** * Further properties *)

Section ActiveStockShape.
Context {num : Type} `{PyNum num}.
Local Open Scope py_scope.

Lemma active_stock_window (starts : Series num) (duration : Z) (idx : list Z)
    (ramp_months : Z) :
  (ramp_months ≤ 0)%Z → (1 ≤ duration)%Z →
  _active_stock starts duration idx ramp_months
  = map (λ m', (m', trailing_window_sum starts duration m')) idx.
Proof.
  intros Hramp Hdur. unfold _active_stock.
  destruct (Z.leb_spec duration 0) as [?|_]; [lia|].
  destruct (Z.leb_spec ramp_months 0) as [_|?]; [|lia].
  rewrite (fold_left_ext_body _
    (λ s e, map (λ p, (p.1, window_update duration e p.1 p.2)) s)).
  - rewrite fold_pointwise.
    rewrite (new_series_pointwise _ _
      (λ m v, fold_left (λ v e, window_update duration e m v) starts v)).
    apply map_ext. intros m'. by rewrite window_update_fold.
  - intros a [dt n]. unfold window_update, mask_add. simpl.
    destruct (n <? lit_1e_9); [by rewrite map_pointwise_id|].
    apply map_ext. intros [m v]. simpl.
    by destruct ((dt <=? m)%Z && (m <? dt + duration)%Z).
Qed.

(** Whatever its arguments, [_active_stock] tabulates [active_value] over
    the index. *)
Lemma active_stock_closed (starts : Series num) (duration : Z) (idx : list Z)
    (ramp_months : Z) :
  _active_stock starts duration idx ramp_months
  = map (λ m', (m', active_value starts duration ramp_months m')) idx.
Proof.
  unfold active_value.
  destruct (Z.leb_spec duration 0) as [Hd|Hd].
  - unfold _active_stock. destruct (Z.leb_spec duration 0); [done|lia].
  - destruct (Z.leb_spec ramp_months 0) as [Hr|Hr].
    + by rewrite active_stock_window by lia.
    + by rewrite active_stock_ramp by lia.
Qed.

(** Whatever the start series, the duration and the ramp, the active series
    is aligned with the month index, label for label, and holds at each
    month the closed form of the loop that applies: a start event outside
    the index still counts in the months of the index it covers, and with a
    duration that is not positive every value is zero. *)
Theorem active_stock_aligned (starts : Series num) (duration : Z)
    (idx : list Z) (ramp_months : Z) :
  _active_stock starts duration idx ramp_months
  = map (λ m', (m', active_value starts duration ramp_months m')) idx
  ∧ index (_active_stock starts duration idx ramp_months) = idx
  ∧ (∀ m', m' ∉ idx →
       contains (index (_active_stock starts duration idx ramp_months)) m'
       = false)
  ∧ ((duration ≤ 0)%Z →
       Forall (λ p, p.2 = fzero)
         (_active_stock starts duration idx ramp_months)).
Proof.
  rewrite active_stock_closed.
  assert (index (map (λ m', (m', active_value starts duration ramp_months m'))
                   idx) = idx) as Hidx.
  { unfold index. rewrite map_map. apply map_id. }
  split; [done|]. split; [exact Hidx|]. split.
  - intros m' Hm'. rewrite Hidx. apply not_true_iff_false.
    by rewrite contains_elem_of.
  - intros Hd. apply Forall_forall. intros p [m' [-> _]]%list_elem_of_fmap.
    unfold active_value. simpl. by destruct (Z.leb_spec duration 0); [|lia].
Qed.

End ActiveStockShape.

Section ExactSums.
Local Open Scope Q_scope.

Lemma fold_left_Qplus_shift (l : list Q) (v : Q) :
  fold_left Qplus l v == v + fold_left Qplus l 0.
Proof.
  revert v. induction l as [|x l IH]; intros v; simpl; [ring|].
  rewrite (IH (v + x)), (IH (0 + x)). ring.
Qed.

Lemma sum_of_nil : sum_of (num:=Q) [] = 0.
Proof. done. Qed.

Lemma sum_of_cons (x : Q) (l : list Q) : sum_of (x :: l) == x + sum_of l.
Proof.
  unfold sum_of. simpl. rewrite fold_left_Qplus_shift. ring.
Qed.

Lemma sum_of_nonneg (l : list Q) : Forall (λ x, 0 <= x) l → 0 <= sum_of l.
Proof.
  induction 1 as [|x l Hx _ IH]; [done|].
  rewrite sum_of_cons. rewrite <- (Qplus_0_l 0). by apply Qplus_le_compat.
Qed.

Lemma sum_of_map_plus {A : Type} (f g : A → Q) (l : list A) :
  sum_of (map (λ x, f x + g x) l) == sum_of (map f l) + sum_of (map g l).
Proof.
  induction l as [|x l IH]; simpl; [done|].
  rewrite !sum_of_cons, IH. ring.
Qed.

Lemma sum_of_map_equiv {A : Type} (f g : A → Q) (l : list A) :
  (∀ x, x ∈ l → f x == g x) → sum_of (map f l) == sum_of (map g l).
Proof.
  induction l as [|x l IH]; intros Hfg; simpl; [done|].
  rewrite !sum_of_cons, IH, (Hfg x); [done|apply list_elem_of_here|].
  intros y Hy. apply Hfg. by apply list_elem_of_further.
Qed.

Lemma sum_of_map_scale {A : Type} (c : Q) (f : A → Q) (l : list A) :
  sum_of (map (λ x, c * f x) l) == c * sum_of (map f l).
Proof.
  induction l as [|x l IH]; simpl; [rewrite sum_of_nil; ring|].
  rewrite !sum_of_cons, IH. ring.
Qed.

(** The number of months of [[lo, lo + n)] that lie in [[m, m + d)]. *)
Lemma window_count (m d lo : Z) (n : nat) (x : Q) :
  sum_of (map (λ l, if ((m <=? l) && (l <? m + d))%Z then x else 0)
            (seqZ lo (Z.of_nat n)))
  == inject_Z (Z.max 0 (Z.min (lo + Z.of_nat n) (m + d) - Z.max lo m)) * x.
Proof.
  revert lo. induction n as [|n IH]; intros lo.
  - simpl. rewrite sum_of_nil.
    replace (Z.max 0 (Z.min (lo + Z.of_nat 0) (m + d) - Z.max lo m)) with 0%Z by lia.
    ring.
  - rewrite Nat2Z.inj_succ, seqZ_cons by lia. simpl map.
    replace (Z.pred (Z.succ (Z.of_nat n))) with (Z.of_nat n) by lia.
    rewrite sum_of_cons, IH.
    destruct (Z.leb_spec m lo), (Z.ltb_spec lo (m + d)); simpl.
    + replace (Z.max 0 (Z.min (lo + Z.succ (Z.of_nat n)) (m + d) - Z.max lo m))
        with (1 + Z.max 0 (Z.min (Z.succ lo + Z.of_nat n) (m + d)
                           - Z.max (Z.succ lo) m))%Z by lia.
      rewrite inject_Z_plus. ring.
    + replace (Z.max 0 (Z.min (lo + Z.succ (Z.of_nat n)) (m + d) - Z.max lo m))
        with (Z.max 0 (Z.min (Z.succ lo + Z.of_nat n) (m + d)
                       - Z.max (Z.succ lo) m))%Z by lia.
      ring.
    + replace (Z.max 0 (Z.min (lo + Z.succ (Z.of_nat n)) (m + d) - Z.max lo m))
        with (Z.max 0 (Z.min (Z.succ lo + Z.of_nat n) (m + d)
                       - Z.max (Z.succ lo) m))%Z by lia.
      ring.
    + replace (Z.max 0 (Z.min (lo + Z.succ (Z.of_nat n)) (m + d) - Z.max lo m))
        with (Z.max 0 (Z.min (Z.succ lo + Z.of_nat n) (m + d)
                       - Z.max (Z.succ lo) m))%Z by lia.
      ring.
Qed.

End ExactSums.

Section ExactActive.
Local Open Scope Q_scope.

Lemma non_negligible_ge (n : Q) :
  non_negligible n = true ↔ (1 # 1000000000) <= n.
Proof. unfold non_negligible. rewrite negb_true_iff. apply Qltb_ge. Qed.

Lemma non_negligible_pos (n : Q) : non_negligible n = true → 0 < n.
Proof.
  intros Hn%non_negligible_ge. eapply Qlt_le_trans; [|exact Hn]. done.
Qed.

Lemma ramp_factor_bounds (k r : Z) :
  (0 ≤ k)%Z → (0 < r)%Z → 0 < ramp_factor k r ∧ ramp_factor k r <= 1.
Proof.
  intros Hk Hr. destruct (Z.lt_ge_cases (k + 1) r) as [Hlt|Hge].
  - rewrite ramp_factor_rising by lia. split.
    + apply Qlt_shift_div_l; [by apply inject_Z_pos|].
      rewrite Qmult_0_l. apply inject_Z_pos. lia.
    + apply Qlt_le_weak. apply Qlt_shift_div_r; [by apply inject_Z_pos|].
      rewrite Qmult_1_l, <- Zlt_Qlt. lia.
  - rewrite ramp_factor_full by lia. split; [done|apply Qle_refl].
Qed.

Lemma trailing_window_sum_nonneg (starts : Series Q) (duration m' : Z) :
  0 <= trailing_window_sum starts duration m'.
Proof.
  unfold trailing_window_sum. apply sum_of_nonneg.
  apply Forall_forall. intros x [e [-> He]]%list_elem_of_fmap.
  apply list_elem_of_In, filter_In in He as [_ He].
  apply andb_true_iff in He as [He _]. apply andb_true_iff in He as [He _].
  apply Qlt_le_weak. by apply non_negligible_pos.
Qed.

Lemma ramp_fold_nonneg (starts : Series Q) (duration ramp_months m' : Z)
    (v : Q) :
  (0 < ramp_months)%Z → 0 <= v →
  0 <= fold_left (λ v e, ramp_update duration ramp_months e m' v) starts v.
Proof.
  intros Hr. revert v. induction starts as [|[dt n] starts IH]; intros v Hv.
  - done.
  - simpl. apply IH. unfold ramp_update. simpl.
    destruct (Qltb n _) eqn:Hn; [done|].
    destruct (Z.leb_spec dt m'); simpl; [|done].
    destruct (Z.ltb_spec m' (dt + duration)); simpl; [|done].
    rewrite <- (Qplus_0_l 0). apply Qplus_le_compat; [done|].
    apply Qmult_le_0_compat.
    + apply Qlt_le_weak, non_negligible_pos. unfold non_negligible. simpl.
      by rewrite Hn.
    + apply Qlt_le_weak. apply ramp_factor_bounds; lia.
Qed.

(** The active stock is never negative, whatever the start series holds:
    the events it counts are at least 1e-9 and their ramp factors are
    positive. *)
Theorem active_stock_nonneg (starts : Series Q) (duration : Z) (idx : list Z)
    (ramp_months : Z) :
  Forall (λ p, 0 <= p.2) (_active_stock starts duration idx ramp_months).
Proof.
  rewrite active_stock_closed. apply Forall_forall.
  intros p [m' [-> _]]%list_elem_of_fmap. simpl. unfold active_value.
  destruct (duration <=? 0)%Z; [done|].
  destruct (Z.leb_spec ramp_months 0).
  - apply trailing_window_sum_nonneg.
  - by apply ramp_fold_nonneg.
Qed.

(** Both loops over the start events, compared step by step. *)
Lemma ramp_fold_le_window (starts : Series Q) (duration ramp_months m' : Z)
    (v w : Q) :
  (0 < ramp_months)%Z → v <= w →
  fold_left (λ v e, ramp_update duration ramp_months e m' v) starts v
  <= fold_left (λ v e, window_update duration e m' v) starts w.
Proof.
  intros Hr. revert v w. induction starts as [|[dt n] starts IH];
    intros v w Hvw; [done|].
  simpl. apply IH. unfold ramp_update, window_update. simpl.
  destruct (Qltb n _) eqn:Hn; [done|].
  destruct (Z.leb_spec dt m'); simpl; [|done].
  destruct (Z.ltb_spec m' (dt + duration)); simpl; [|done].
  apply Qplus_le_compat; [done|].
  assert (0 < n) as Hpos.
  { apply non_negligible_pos. unfold non_negligible. simpl. by rewrite Hn. }
  rewrite <- (Qmult_1_r n) at 2. apply Qmult_le_l; [done|].
  apply ramp_factor_bounds; lia.
Qed.

Lemma ramp_one_fold_eq_window (starts : Series Q) (duration m' : Z) (v w : Q) :
  v == w →
  fold_left (λ v e, ramp_update duration 1 e m' v) starts v
  == fold_left (λ v e, window_update duration e m' v) starts w.
Proof.
  revert v w. induction starts as [|[dt n] starts IH]; intros v w Hvw; [done|].
  simpl. apply IH. unfold ramp_update, window_update. simpl.
  destruct (Qltb n _) eqn:Hn; [done|].
  destruct (Z.leb_spec dt m'); simpl; [|done].
  destruct (Z.ltb_spec m' (dt + duration)); simpl; [|done].
  rewrite ramp_factor_full by lia. rewrite Hvw. ring.
Qed.

(** A ramp never adds to the active stock: month by month the stock with a
    ramp is at most the stock without one, and a ramp of one month is no
    ramp at all. *)
Theorem ramp_never_adds (starts : Series Q) (duration : Z) (idx : list Z)
    (ramp_months : Z) :
  (0 < ramp_months)%Z →
  Forall2 (λ p q, p.1 = q.1 ∧ p.2 <= q.2)
    (_active_stock starts duration idx ramp_months)
    (_active_stock starts duration idx 0)
  ∧ (ramp_months = 1%Z →
       Forall2 (λ p q, p.1 = q.1 ∧ p.2 == q.2)
         (_active_stock starts duration idx ramp_months)
         (_active_stock starts duration idx 0)).
Proof.
  intros Hr. rewrite !active_stock_closed. unfold active_value.
  destruct (Z.leb_spec ramp_months 0); [lia|]. simpl.
  split.
  - apply Forall2_fmap, Forall_Forall2_diag, Forall_forall.
    intros m' _. simpl. split; [done|].
    destruct (duration <=? 0)%Z; [apply Qle_refl|].
    unfold trailing_window_sum, sum_of. rewrite <- window_update_fold.
    apply ramp_fold_le_window; [done|apply Qle_refl].
  - intros ->. apply Forall2_fmap, Forall_Forall2_diag, Forall_forall.
    intros m' _. simpl. split; [done|].
    destruct (duration <=? 0)%Z; [done|].
    unfold trailing_window_sum, sum_of. rewrite <- window_update_fold.
    by apply ramp_one_fold_eq_window.
Qed.

End ExactActive.

Section Conservation.
Local Open Scope Q_scope.

Lemma trailing_window_sum_cons (e : Z * Q) (starts : Series Q)
    (duration m' : Z) :
  trailing_window_sum (e :: starts) duration m'
  == (if non_negligible e.2 && (e.1 <=? m')%Z && (m' <? e.1 + duration)%Z
      then e.2 else 0)
     + trailing_window_sum starts duration m'.
Proof.
  unfold trailing_window_sum, trailing_window. simpl.
  destruct (non_negligible e.2); simpl; [|ring].
  destruct (Z.ltb_spec (m' - duration) e.1), (Z.leb_spec e.1 m'),
    (Z.ltb_spec m' (e.1 + duration)); simpl; try lia;
    first [apply sum_of_cons | ring].
Qed.

Lemma range_window_count (m d lo hi : Z) (x : Q) :
  sum_of (map (λ l, if ((m <=? l) && (l <? m + d))%Z then x else 0)
            (range lo hi))
  == inject_Z (months_in_index lo hi m d) * x.
Proof.
  unfold range, months_in_index.
  assert (seqZ lo (hi - lo) = seqZ lo (Z.of_nat (Z.to_nat (hi - lo)))) as ->.
  { unfold seqZ. by rewrite Nat2Z.id. }
  rewrite window_count.
  replace (Z.max 0 (Z.min (lo + Z.of_nat (Z.to_nat (hi - lo))) (m + d)
                    - Z.max lo m))
    with (Z.max 0 (Z.min hi (m + d) - Z.max lo m)) by lia.
  reflexivity.
Qed.

(** The sum of the active stock over a contiguous index counts every
    non-negligible start once for each month of its duration that lies in
    the index. *)
Lemma active_stock_sum (starts : Series Q) (d lo hi r : Z) :
  (r ≤ 0)%Z → (1 ≤ d)%Z →
  series_sum (_active_stock starts d (range lo hi) r)
  == sum_of (map (λ e, inject_Z (months_in_index lo hi e.1 d) * e.2)
               (counted starts)).
Proof.
  intros Hr Hd. rewrite active_stock_window by done.
  unfold series_sum. rewrite map_map. simpl.
  induction starts as [|e starts IH].
  - simpl. rewrite sum_of_nil.
    rewrite (sum_of_map_equiv _ (λ _, 0 * 0)).
    + rewrite (sum_of_map_scale 0 (λ _, 0)). ring.
    + intros m' _. unfold trailing_window_sum. simpl. rewrite sum_of_nil. ring.
  - rewrite (sum_of_map_equiv _ (λ m',
      (if ((e.1 <=? m') && (m' <? e.1 + d))%Z
       then (if non_negligible e.2 then e.2 else 0) else 0)
      + trailing_window_sum starts d m')).
    2:{ intros m' _. rewrite trailing_window_sum_cons.
        destruct (non_negligible e.2), (e.1 <=? m')%Z, (m' <? e.1 + d)%Z;
          simpl; ring. }
    rewrite sum_of_map_plus, IH, range_window_count.
    unfold counted. simpl. destruct (non_negligible e.2); simpl.
    + rewrite sum_of_cons. ring.
    + ring.
Qed.

(** In exact arithmetic person-months are conserved: when every counted
    cohort starts and ends inside the index, the active stock summed over
    the index is the duration times the number of projects started. *)
Theorem person_months_conserved (starts : Series Q) (d lo hi r : Z) :
  (r ≤ 0)%Z → (1 ≤ d)%Z →
  Forall (λ e, (lo ≤ e.1)%Z ∧ (e.1 + d ≤ hi)%Z) (counted starts) →
  series_sum (_active_stock starts d (range lo hi) r)
  == inject_Z d * sum_of (map snd (counted starts)).
Proof.
  intros Hr Hd Hin. rewrite active_stock_sum by done.
  rewrite <- sum_of_map_scale. apply sum_of_map_equiv.
  intros e He. rewrite Forall_forall in Hin. destruct (Hin e He) as [Hlo Hhi].
  unfold months_in_index.
  replace (Z.max 0 (Z.min hi (e.1 + d) - Z.max lo e.1)) with d by lia.
  reflexivity.
Qed.

End Conservation.

Section DirectStarts.
Context {num : Type} `{PyNum num}.
Local Open Scope py_scope.

(** A loop whose body never raises is a plain fold. *)
Lemma for_each_pure {A S : Type} (l : list A) (body : S → A → result S)
    (f : S → A → S) (s : S) :
  (∀ s x, x ∈ l → body s x = Ok (f s x)) →
  for_each l body s = Ok (fold_left f l s).
Proof.
  revert s. induction l as [|x l IH]; intros s Hbody; simpl; [done|].
  rewrite Hbody by apply list_elem_of_here. simpl.
  apply IH. intros s' y Hy. apply Hbody. by apply list_elem_of_further.
Qed.

(** A loop raises what its body raises at the first item where it does. *)
Lemma for_each_raises {A S : Type} (l1 l2 : list A) (x : A)
    (body : S → A → result S) (s : S) (e : exn) :
  (∀ s y, y ∈ l1 → ∃ s', body s y = Ok s') →
  (∀ s, body s x = Raise e) →
  for_each (l1 ++ x :: l2) body s = Raise e.
Proof.
  intros Hl1 Hx. rewrite for_each_app.
  destruct (for_each_total l1 body s Hl1) as [s' ->]. simpl. by rewrite Hx.
Qed.

(** One pass over the intake months of year [y] touches the month [l] at
    most once. *)
Lemma intake_months_fold (x : num) (y l ism : Z) (v : num) :
  fold_left (λ v m, if (l =? first_of_month y m)%Z then v + x else v)
    (range 1 (ism + 1)) v
  = if ((12 * y <=? l) && (l <? 12 * y + ism))%Z then v + x else v.
Proof.
  rewrite (fold_left_ext_body _
    (λ v m, if (l =? (12 * y - 1) + m)%Z then v + (λ _, x) m else v)).
  - unfold range.
    assert (seqZ 1 (ism + 1 - 1) = seqZ 1 (Z.of_nat (Z.to_nat ism))) as ->.
    { unfold seqZ. rewrite Nat2Z.id. f_equal. f_equal. lia. }
    rewrite (offsets_fold (λ _, x)). zcases.
  - intros a m. unfold first_of_month.
    by replace (12 * y + (m - 1))%Z with (12 * y - 1 + m)%Z by lia.
Qed.

(** One pass over the years touches the month [l] at most once, in its own
    year. *)
Lemma intake_years_fold (x : num) (l ism lo : Z) (n : nat) (v : num) :
  (ism ≤ 12)%Z →
  fold_left (λ v y, if ((12 * y <=? l) && (l <? 12 * y + ism))%Z
                    then v + x else v) (seqZ lo (Z.of_nat n)) v
  = if ((lo <=? l / 12) && (l / 12 <? lo + Z.of_nat n)
        && (l mod 12 <? ism))%Z then v + x else v.
Proof.
  intros Hism. revert lo v. induction n as [|n IH]; intros lo v.
  - simpl. zcases.
  - rewrite Nat2Z.inj_succ, seqZ_cons by lia. simpl.
    replace (Z.pred (Z.succ (Z.of_nat n))) with (Z.of_nat n) by lia.
    rewrite IH.
    pose proof (Z.div_mod l 12 ltac:(lia)) as Hdm.
    pose proof (Z.mod_pos_bound l 12 ltac:(lia)) as Hmod.
    destruct (Z.leb_spec (12 * lo) l), (Z.ltb_spec l (12 * lo + ism));
      simpl; zcases.
Qed.

(** With an intake window of at most twelve months, the direct intake adds
    [monthly_n] once to each intake month that is in the index of the start
    series, and leaves every other month as it is. *)
Lemma direct_starts_closed (cfg : ModelConfig num) (starts : Series num)
    (monthly_n : num) :
  (intake_spread_months cfg ≤ 12)%Z →
  direct_starts cfg starts monthly_n
  = Ok (map (λ p, (p.1, if is_intake_month cfg p.1 then p.2 + monthly_n
                        else p.2)) starts).
Proof.
  intros Hism. unfold direct_starts.
  set (month_step := λ (y : Z) (s : Series num) (m : Z),
    map (λ p, (p.1, (λ m l v,
      if (l =? first_of_month y m)%Z then v + monthly_n else v) m p.1 p.2)) s).
  set (year_step := λ (s : Series num) (y : Z),
    map (λ p, (p.1, (λ y l v,
      if ((12 * y <=? l) && (l <? 12 * y + intake_spread_months cfg))%Z
      then v + monthly_n else v) y p.1 p.2)) s).
  rewrite (for_each_pure _ _ year_step).
  - f_equal. unfold year_step.
    rewrite (fold_pointwise (λ y l v,
      if ((12 * y <=? l) && (l <? 12 * y + intake_spread_months cfg))%Z
      then v + monthly_n else v)).
    apply map_ext. intros [l v]. simpl. f_equal. unfold range.
    assert (seqZ (start_year cfg) (end_year cfg + 1 - start_year cfg)
            = seqZ (start_year cfg)
                (Z.of_nat (Z.to_nat (end_year cfg + 1 - start_year cfg))))
      as ->.
    { unfold seqZ. by rewrite Nat2Z.id. }
    rewrite intake_years_fold by done. unfold is_intake_month.
    destruct (Z.leb_spec (start_year cfg) (l / 12)); simpl; [|done].
    destruct (Z.ltb_spec (l / 12)
      (start_year cfg + Z.of_nat (Z.to_nat (end_year cfg + 1 - start_year cfg))));
      destruct (Z.leb_spec (l / 12) (end_year cfg)); simpl; try done; lia.
  - intros s y _. rewrite (for_each_pure _ _ (month_step y)).
    + f_equal. unfold month_step, year_step.
      rewrite (fold_pointwise (λ m l v,
        if (l =? first_of_month y m)%Z then v + monthly_n else v)).
      apply map_ext. intros [l v]. simpl. by rewrite intake_months_fold.
    + intros s' m Hm. unfold range in Hm. apply elem_of_seqZ in Hm.
      unfold Timestamp.
      destruct (Z.leb_spec 1 m); [|lia]. destruct (Z.leb_spec m 12); [|lia].
      simpl. rewrite guarded_loc_add. unfold month_step.
      by rewrite loc_add_pointwise.
Qed.

End DirectStarts.

Section IntakeWindow.
Context {num : Type} `{PyNum num}.
Local Open Scope py_scope.

Lemma is_intake_month_spec (cfg : ModelConfig num) (l : Z) :
  (intake_spread_months cfg ≤ 12)%Z →
  is_intake_month cfg l = true
  ↔ ∃ y m, (start_year cfg ≤ y ≤ end_year cfg)%Z
           ∧ (1 ≤ m ≤ intake_spread_months cfg)%Z
           ∧ l = first_of_month y m.
Proof.
  intros Hism. unfold is_intake_month, first_of_month.
  pose proof (Z.div_mod l 12 ltac:(lia)) as Hdm.
  pose proof (Z.mod_pos_bound l 12 ltac:(lia)) as Hmod.
  rewrite !andb_true_iff, !Z.leb_le, Z.ltb_lt. split.
  - intros [[Hlo Hhi] Hm]. exists (l / 12)%Z, (l mod 12 + 1)%Z. lia.
  - intros (y & m & Hy & Hm & ->).
    assert ((12 * y + (m - 1)) / 12 = y)%Z as Hdiv.
    { symmetry. apply (Z.div_unique _ 12 y (m - 1)); lia. }
    assert ((12 * y + (m - 1)) mod 12 = m - 1)%Z as Hrem.
    { symmetry. apply (Z.mod_unique _ 12 y (m - 1)); lia. }
    rewrite Hdiv, Hrem. lia.
Qed.


Lemma direct_starts_raises (cfg : ModelConfig num) (starts : Series num)
    (monthly_n : num) :
  (12 < intake_spread_months cfg)%Z →
  (start_year cfg ≤ end_year cfg)%Z →
  direct_starts cfg starts monthly_n = Raise ValueError.
Proof.
  intros Hism Hyears. unfold direct_starts.
  assert (range (start_year cfg) (end_year cfg + 1)
          = [] ++ start_year cfg
               :: range (start_year cfg + 1) (end_year cfg + 1)) as ->.
  { unfold range. rewrite seqZ_cons by lia. simpl. do 2 f_equal; lia. }
  apply for_each_raises; [by intros ? ? ?%elem_of_nil|]. intros s.
  assert (range 1 (intake_spread_months cfg + 1)
          = range 1 13 ++ 13%Z :: range 14 (intake_spread_months cfg + 1))
    as ->.
  { unfold range.
    replace (intake_spread_months cfg + 1 - 1)%Z
      with (12 + (intake_spread_months cfg - 12))%Z by lia.
    rewrite seqZ_app by lia. f_equal.
    rewrite seqZ_cons by lia. do 2 f_equal; lia. }
  apply for_each_raises; [|done].
  intros s' m Hm. unfold range in Hm. apply elem_of_seqZ in Hm.
  unfold Timestamp.
  destruct (Z.leb_spec 1 m); [|lia]. destruct (Z.leb_spec m 12); [|lia].
  simpl. by eexists.
Qed.

(** The direct intake of a stage: whenever the loop returns, it has kept
    the index of the start series and added [monthly_n] exactly once to
    each month that is one of the first [intake_spread_months] months of a
    year of [[start_year, end_year]]; every other month keeps its value. *)
Theorem direct_intake_placement (cfg : ModelConfig num) (starts : Series num)
    (monthly_n : num) (out : Series num) :
  direct_starts cfg starts monthly_n = Ok out →
  out = map (λ p, (p.1, if is_intake_month cfg p.1 then p.2 + monthly_n
                        else p.2)) starts
  ∧ index out = index starts
  ∧ ∀ l, is_intake_month cfg l = true
         ↔ ∃ y m, (start_year cfg ≤ y ≤ end_year cfg)%Z
                  ∧ (1 ≤ m ≤ intake_spread_months cfg)%Z
                  ∧ l = first_of_month y m.
Proof.
  intros Hout.
  assert (index (map (λ p : Z * num,
            (p.1, if is_intake_month cfg p.1 then p.2 + monthly_n else p.2))
            starts) = index starts) as Hidx.
  { unfold index. rewrite map_map. by apply map_ext. }
  destruct (Z.le_gt_cases (intake_spread_months cfg) 12) as [Hism|Hism].
  - rewrite direct_starts_closed in Hout by done. injection Hout as <-.
    split; [done|]. split; [exact Hidx|].
    intros l. by apply is_intake_month_spec.
  - destruct (Z.le_gt_cases (start_year cfg) (end_year cfg)) as [Hy|Hy].
    { rewrite direct_starts_raises in Hout by lia. done. }
    assert (∀ l, is_intake_month cfg l = false) as Hnone.
    { intros l. unfold is_intake_month.
      destruct (Z.leb_spec (start_year cfg) (l / 12)); [|done].
      destruct (Z.leb_spec (l / 12) (end_year cfg)); [lia|done]. }
    assert (out = starts) as ->.
    { revert Hout. unfold direct_starts, range.
      assert (seqZ (start_year cfg) (end_year cfg + 1 - start_year cfg) = [])
        as ->.
      { unfold seqZ.
        by replace (Z.to_nat (end_year cfg + 1 - start_year cfg)) with 0%nat
          by lia. }
      simpl. by intros [= <-]. }
    split; [|split; [done|]].
    + rewrite <- (map_id starts) at 1. apply map_ext.
      intros [l v]. simpl. by rewrite Hnone.
    + intros l. rewrite Hnone. split; [done|].
      intros (y & m & Hyr & _). lia.
Qed.

(** The loops of the runner raise nothing but [ValueError]. *)
Lemma for_each_only_raises {A S : Type} (l : list A) (body : S → A → result S)
    (s : S) (e0 : exn) :
  (∀ s x e, body s x = Raise e → e = e0) →
  ∀ e, for_each l body s = Raise e → e = e0.
Proof.
  intros Hbody. revert s. induction l as [|x l IH]; intros s e; simpl; [done|].
  destruct (body s x) as [s'|e'] eqn:Hb; simpl.
  - apply IH.
  - intros [= <-]. by eapply Hbody.
Qed.

Lemma stage_starts_only_raises (cfg : ModelConfig num) (arch_projects : num)
    (idx : list Z) (i : nat) (sname : string) (prev : option (Series num))
    (e : exn) :
  stage_starts cfg arch_projects idx i sname prev = Raise e → e = ValueError.
Proof.
  unfold stage_starts. destruct (_ >? fzero); simpl; [|done].
  destruct (direct_starts _ _ _) as [s|e'] eqn:Hd; simpl; [done|].
  intros [= <-]. revert Hd. unfold direct_starts.
  apply for_each_only_raises. intros s1 y e1.
  apply for_each_only_raises. intros s2 m e2.
  unfold Timestamp. destruct (_ && _); simpl; [done|]. by intros [= <-].
Qed.

Lemma run_archetype_only_raises (cfg : ModelConfig num) (arch : Archetype num)
    (arch_projects : num) (idx : list Z) (utilization : num)
    (records : list (MonthlyRecord num)) (e : exn) :
  _run_archetype cfg arch arch_projects idx utilization records = Raise e →
  e = ValueError.
Proof.
  unfold _run_archetype.
  destruct (for_each _ _ _) as [st|e'] eqn:Hloop; simpl; [done|].
  intros [= <-]. revert Hloop. apply for_each_only_raises.
  intros [prev recs] [i sname] e1. unfold run_stage.
  destruct (stages arch !! sname) as [sp|]; [|done].
  destruct (stage_starts _ _ _ _ _ _) as [s|e2] eqn:Hs; simpl; [done|].
  intros [= <-]. by eapply stage_starts_only_raises.
Qed.

(** A loop in which some item makes the body raise, whatever the state,
    raises. *)
Lemma for_each_some_raises {A S : Type} (l : list A) (body : S → A → result S)
    (x : A) (s : S) :
  x ∈ l → (∀ s, ∃ e, body s x = Raise e) →
  ∃ e, for_each l body s = Raise e.
Proof.
  intros Hx Hraise. revert s. induction l as [|y l IH]; intros s.
  - by apply elem_of_nil in Hx.
  - simpl. destruct (body s y) as [s'|e] eqn:Hb; simpl; [|by eexists].
    apply elem_of_cons in Hx as [->|Hx]; [|by apply IH].
    destruct (Hraise s) as [e He]. congruence.
Qed.

End IntakeWindow.

Section Rows.
Context {num : Type} `{PyNum num}.
Local Open Scope py_scope.

Lemma elem_of_enumerate {A : Type} (l : list A) (i : nat) (x : A) :
  (i, x) ∈ enumerate l ↔ l !! i = Some x.
Proof.
  unfold enumerate. rewrite list_elem_of_lookup. split.
  - intros [j Hj]. rewrite list_lookup_imap in Hj.
    destruct (l !! j) as [y|] eqn:Hy; simpl in Hj; [|done].
    by injection Hj as <- <-.
  - intros Hi. exists i. rewrite list_lookup_imap. by rewrite Hi.
Qed.

(** A run raises [ValueError] as soon as some stage of some archetype has a
    positive direct volume while the intake window exceeds twelve months and
    the range of intake years is not empty: the timestamp of a thirteenth
    month does not exist. *)
Theorem intake_window_above_twelve_raises (cfg : ModelConfig num)
    (arch : Archetype num) (sname : string) (sp : StageParams num) (p : num) :
  (12 < intake_spread_months cfg)%Z →
  (start_year cfg ≤ end_year cfg)%Z →
  arch ∈ archetypes cfg →
  sname ∈ pipeline_stages cfg →
  stages arch !! sname = Some sp →
  _projects_per_year cfg = Ok p →
  (p * portfolio_share arch * default fzero (stage_mix cfg !! sname)
   >? fzero) = true →
  run cfg = Raise ValueError ∧ run_model cfg = Raise ValueError.
Proof.
  intros Hism Hyears Harch Hsname Hsp Hp Hpos.
  assert (run cfg = Raise ValueError) as Hrun.
  { unfold run. rewrite Hp, month_index_total. simpl.
    match goal with
    | |- context [for_each ?l ?b ?s] =>
        destruct (for_each l b s) as [records|e] eqn:Hloop
    end.
    - exfalso. revert Hloop.
      match goal with
      | |- for_each ?l ?b ?s = _ → _ =>
          destruct (for_each_some_raises l b arch s Harch) as [e He];
            [|by rewrite He]
      end.
      intros records0. unfold _run_archetype.
      apply list_elem_of_lookup in Hsname as [i Hi].
      match goal with
      | |- context [for_each ?l ?b ?s] =>
          destruct (for_each_some_raises l b (i, sname) s) as [e He];
            [by apply elem_of_enumerate| |rewrite He; by eexists]
      end.
      intros [prev recs]. unfold run_stage. rewrite Hsp.
      unfold stage_starts. rewrite Hpos.
      rewrite direct_starts_raises by done. by eexists.
    - simpl. f_equal. revert Hloop. apply for_each_only_raises.
      intros recs a e1. apply run_archetype_only_raises. }
  split; [exact Hrun|]. unfold run_model. by rewrite Hrun.
Qed.

Lemma emit_records_rows (cfg : ModelConfig num) (arch : Archetype num)
    (sname : string) (sp : StageParams num) (utilization : num)
    (active : Series num) (idx : list Z) (records : list (MonthlyRecord num)) :
  arch ∈ archetypes cfg → sname ∈ pipeline_stages cfg →
  stages arch !! sname = Some sp →
  Forall (row_of_run cfg idx utilization) records →
  Forall (row_of_run cfg idx utilization)
    (emit_records arch sname sp utilization active idx records).
Proof.
  intros Harch Hsname Hsp Hrecs. rewrite emit_records_closed.
  apply Forall_app. split; [done|]. apply Forall_forall.
  intros r [dt [-> Hdt]]%list_elem_of_fmap.
  apply list_elem_of_In, filter_In in Hdt as [Hdt Hn].
  exists arch, sp. simpl. repeat split; try done. by apply list_elem_of_In.
Qed.

Lemma run_archetype_rows (cfg : ModelConfig num) (arch : Archetype num)
    (arch_projects : num) (idx : list Z) (utilization : num)
    (records out : list (MonthlyRecord num)) :
  arch ∈ archetypes cfg →
  Forall (row_of_run cfg idx utilization) records →
  _run_archetype cfg arch arch_projects idx utilization records = Ok out →
  Forall (row_of_run cfg idx utilization) out.
Proof.
  intros Harch Hrecs. unfold _run_archetype.
  destruct (for_each _ _ _) as [st|] eqn:Hloop; simpl; [|done].
  intros [= <-]. revert Hloop.
  apply (for_each_invariant
    (λ st, Forall (row_of_run cfg idx utilization) st.2)); [|done].
  intros [prev recs] [i sname] st' Hin Hst. simpl in Hst.
  apply elem_of_enumerate in Hin. unfold run_stage.
  destruct (stages arch !! sname) as [sp|] eqn:Hsp; [|by intros [= <-]].
  destruct (stage_starts _ _ _ _ _ _) as [starts|]; simpl; [|done].
  intros [= <-]. simpl. apply emit_records_rows; try done.
  apply list_elem_of_lookup. by exists i.
Qed.

Lemma run_rows_of_run (cfg : ModelConfig num) (out : RunOutput num) :
  run cfg = Ok out →
  Forall (row_of_run cfg
            (date_range (first_of_month (start_year cfg) 1)
               (first_of_month (end_year cfg) 12 + tail_months_of cfg))
            (fmax (utilization_rate cfg) lit_0_01)) (run_monthly out).
Proof.
  unfold run.
  destruct (_projects_per_year cfg) as [total_proj|]; [|done].
  unfold month_index, Timestamp. simpl.
  destruct (for_each _ _ _) as [records|] eqn:Hloop; simpl; [|done].
  intros [= <-]. simpl. revert Hloop.
  apply (for_each_invariant (Forall (row_of_run cfg _ _))); [|done].
  intros recs arch recs' Harch Hrecs. by apply run_archetype_rows.
Qed.

(** Every row of the monthly table is the record of a month of the run's
    index, for a stage of the pipeline that one of the configuration's
    archetypes defines; its year is the year of its month and is not before
    [start_year]. *)
Theorem monthly_rows_well_formed (cfg : ModelConfig num) (out : RunOutput num) :
  run cfg = Ok out →
  let idx := date_range (first_of_month (start_year cfg) 1)
               (first_of_month (end_year cfg) 12 + tail_months_of cfg) in
  let utilization := fmax (utilization_rate cfg) lit_0_01 in
  Forall (λ r, row_of_run cfg idx utilization r
               ∧ rec_year r = year_of (rec_month r)
               ∧ (start_year cfg ≤ rec_year r)%Z)
    (run_monthly out).
Proof.
  intros Hrun idx utilization.
  eapply Forall_impl; [exact (run_rows_of_run cfg out Hrun)|].
  intros r Hr. split; [done|].
  destruct Hr as (arch & sp & _ & _ & _ & Hm & _ & Hr).
  assert (rec_year r = year_of (rec_month r)) as Hy by (by rewrite Hr).
  split; [done|]. rewrite Hy. unfold date_range, range in Hm.
  apply elem_of_seqZ in Hm. unfold year_of, first_of_month in *.
  apply Z.div_le_lower_bound; lia.
Qed.

End Rows.

Section ExactRows.
Local Open Scope Q_scope.



End ExactRows.

Section NoVolume.
Local Open Scope Q_scope.

Lemma negligible_of_zero (x : Q) : x == 0 → non_negligible x = false.
Proof.
  intros Hx. unfold non_negligible. apply negb_false_iff. simpl.
  apply Qltb_lt. by rewrite Hx.
Qed.

Lemma counted_none (starts : Series Q) :
  Forall (λ p, p.2 == 0) starts →
  List.filter (λ e : Z * Q, non_negligible e.2) starts = [].
Proof.
  induction 1 as [|e starts He _ IH]; simpl; [done|].
  by rewrite negligible_of_zero.
Qed.

(** A start series of zeros yields no activity, no completion and no
    record. *)
Lemma active_stock_of_zeros (starts : Series Q) (duration : Z) (idx : list Z)
    (ramp_months : Z) :
  Forall (λ p, p.2 == 0) starts →
  _active_stock starts duration idx ramp_months = new_series 0 idx.
Proof.
  intros Hz. rewrite active_stock_skips_negligible, counted_none by done.
  unfold _active_stock. by repeat case_match.
Qed.

Lemma stage_completions_of_zeros (starts : Series Q) (dur : Z) (idx : list Z) :
  Forall (λ p, p.2 == 0) starts →
  stage_completions starts dur idx = new_series 0 idx.
Proof.
  intros Hz. by rewrite stage_completions_skips_negligible, counted_none.
Qed.

Lemma loc_new_series_zero (idx : list Z) (m : Z) :
  loc (new_series (0 : Q) idx) m = 0.
Proof.
  unfold loc, loc_or, new_series. induction idx as [|l idx IH]; simpl; [done|].
  by destruct (l =? m)%Z.
Qed.

Lemma emit_records_of_zeros (arch : Archetype Q) (sname : string)
    (sp : StageParams Q) (utilization : Q) (idx idx' : list Z)
    (records : list (MonthlyRecord Q)) :
  emit_records arch sname sp utilization (new_series 0 idx') idx records
  = records.
Proof.
  rewrite emit_records_closed.
  assert (List.filter (λ dt, non_negligible (loc (new_series (0 : Q) idx') dt))
            idx = []) as ->; [|apply app_nil_r].
  induction idx as [|dt idx IH]; simpl; [done|].
  by rewrite loc_new_series_zero.
Qed.

Lemma add_converted_of_zeros (cfg : ModelConfig Q) (i : nat) (idx : list Z)
    (prev : option (Series Q)) (starts : Series Q) :
  prev = None ∨ prev = Some (new_series 0 idx) →
  Forall (λ p, p.2 == 0) starts →
  Forall (λ p, p.2 == 0) (add_converted cfg i prev starts).
Proof.
  intros [->| ->] Hz; [done|]. unfold add_converted.
  repeat case_match; try done.
  unfold series_add. apply Forall_forall.
  intros p [q [-> Hq]]%list_elem_of_fmap. simpl.
  rewrite Forall_forall in Hz. rewrite (Hz q Hq).
  assert (loc_or (0 : Q) (scale (new_series 0 idx)
            (default 0 (stage_conversion_rates cfg !! s))) q.1 == 0) as ->;
    [|ring].
  unfold loc_or, scale, new_series. rewrite map_map. simpl.
  induction idx as [|l idx IH]; simpl; [done|].
  destruct (l =? q.1)%Z; [simpl; ring|done].
Qed.

Lemma new_series_zeros (idx : list Z) :
  Forall (λ p : Z * Q, p.2 == 0) (new_series 0 idx).
Proof.
  apply Forall_forall. by intros p [l [-> _]]%list_elem_of_fmap.
Qed.

Lemma stage_starts_no_volume (cfg : ModelConfig Q) (ap : Q)
    (idx : list Z) (i : nat) (sname : string) (prev : option (Series Q)) :
  no_direct_volume cfg ap →
  prev = None ∨ prev = Some (new_series 0 idx) →
  ∃ starts, stage_starts cfg ap idx i sname prev = Ok starts
            ∧ Forall (λ p, p.2 == 0) starts.
Proof.
  intros Hno Hprev. unfold stage_starts. cbv zeta.
  match goal with
  | |- ∃ starts, (?d ≫= _) = _ ∧ _ =>
      assert (∃ direct, d = Ok direct ∧ Forall (λ p : Z * Q, p.2 == 0) direct)
        as (direct & -> & Hdirect)
  end.
  { destruct (flt _ _) eqn:Hpos; [|eexists; split; [done|apply new_series_zeros]].
    simpl in Hpos. apply Qltb_lt in Hpos.
    destruct Hno as [Hp|[Hism|Hyears]].
    - exfalso. rewrite Hp in Hpos. revert Hpos. rewrite !Qmult_0_l.
      apply Qlt_irrefl.
    - rewrite direct_starts_closed by lia. eexists. split; [done|].
      apply Forall_forall. intros q [r [-> Hr]]%list_elem_of_fmap. simpl.
      assert (is_intake_month cfg r.1 = false) as ->.
      { unfold is_intake_month.
        pose proof (Z.mod_pos_bound r.1 12 ltac:(lia)).
        destruct (Z.ltb_spec (r.1 mod 12) (intake_spread_months cfg)); [lia|].
        by rewrite andb_false_r. }
      pose proof (new_series_zeros idx) as Hz. rewrite Forall_forall in Hz.
      by apply Hz.
    - unfold direct_starts, range.
      assert (seqZ (start_year cfg) (end_year cfg + 1 - start_year cfg) = [])
        as ->.
      { unfold seqZ.
        by replace (Z.to_nat (end_year cfg + 1 - start_year cfg)) with 0%nat
          by lia. }
      simpl. eexists. split; [done|apply new_series_zeros]. }
  simpl. eexists. split; [done|].
  by apply (add_converted_of_zeros cfg i idx).
Qed.

Lemma run_stage_no_volume (cfg : ModelConfig Q) (arch : Archetype Q)
    (ap : Q) (idx : list Z) (utilization : Q)
    (records : list (MonthlyRecord Q)) (prev : option (Series Q))
    (i : nat) (sname : string) :
  no_direct_volume cfg ap →
  prev = None ∨ prev = Some (new_series 0 idx) →
  ∃ prev', run_stage cfg arch ap idx utilization (prev, records) (i, sname)
           = Ok (prev', records)
           ∧ (prev' = None ∨ prev' = Some (new_series 0 idx)).
Proof.
  intros Hno Hprev. unfold run_stage.
  destruct (stages arch !! sname) as [sp|]; [|eexists; split; [done|by left]].
  destruct (stage_starts_no_volume cfg ap idx i sname prev Hno Hprev)
    as (starts & -> & Hz).
  simpl. rewrite active_stock_of_zeros, stage_completions_of_zeros by done.
  rewrite emit_records_of_zeros. eexists. split; [done|by right].
Qed.

Lemma run_archetype_no_volume (cfg : ModelConfig Q) (arch : Archetype Q)
    (ap : Q) (idx : list Z) (utilization : Q)
    (records : list (MonthlyRecord Q)) :
  no_direct_volume cfg ap →
  _run_archetype cfg arch ap idx utilization records = Ok records.
Proof.
  intros Hno. unfold _run_archetype.
  assert (∀ l prev, prev = None ∨ prev = Some (new_series 0 idx) →
    ∃ prev', for_each l (run_stage cfg arch ap idx utilization)
      (prev, records) = Ok (prev', records)) as Hloop.
  { induction l as [|[i sname] l IH]; intros prev Hprev; [by eexists|].
    rewrite for_each_cons.
    destruct (run_stage_no_volume cfg arch ap idx utilization records prev
      i sname Hno Hprev) as (prev' & -> & Hprev').
    simpl. by apply IH. }
  destruct (Hloop (enumerate (pipeline_stages cfg)) None) as [prev' Hl];
    [by left|]. by rewrite Hl.
Qed.

Lemma no_direct_volume_share (cfg : ModelConfig Q) (p share : Q) :
  no_direct_volume cfg p → no_direct_volume cfg (fmul p share).
Proof.
  intros [Hp|H]; [left|by right]. simpl. rewrite Hp. apply Qmult_0_l.
Qed.

Lemma no_volume_run (cfg : ModelConfig Q) (p : Q) :
  _projects_per_year cfg = Ok p →
  no_direct_volume cfg p →
  run cfg = Ok {| run_monthly := []; run_projects_per_year := p |}.
Proof.
  intros Hp Hno. unfold run. rewrite Hp, month_index_total. simpl.
  rewrite (for_each_pure _ _ (λ records _, records)).
  - assert (∀ (l : list (Archetype Q)) (r : list (MonthlyRecord Q)),
              fold_left (λ records _, records) l r = r) as ->; [|done].
    induction l as [|a l IH]; intros r; [done|apply IH].
  - intros records arch _. apply run_archetype_no_volume.
    by apply no_direct_volume_share.
Qed.

(** In exact arithmetic, when no project ever starts (the projects-per-year
    figure is zero, the intake window has no month, or the range of intake
    years is empty), a run that returns returns an empty monthly table, and
    the model's result then has an empty annual summary and a zero steady
    state. *)
Theorem no_volume_empty_tables (cfg : ModelConfig Q) (out : RunOutput Q) :
  run cfg = Ok out →
  no_direct_volume cfg (run_projects_per_year out) →
  run_monthly out = []
  ∧ run_model cfg
    = Ok {| monthly := []; annual_summary := [];
            steady_state_avg := 0; steady_state_min_month := 0;
            steady_state_max_month := 0;
            projects_per_year := run_projects_per_year out |}.
Proof.
  intros Hrun Hno.
  assert (_projects_per_year cfg = Ok (run_projects_per_year out)) as Hp.
  { revert Hrun. unfold run.
    destruct (_projects_per_year cfg) as [p|]; [|done].
    rewrite month_index_total. simpl.
    destruct (for_each _ _ _); simpl; [|done]. by intros [= <-]. }
  pose proof (no_volume_run cfg _ Hp Hno) as Hrun'.
  rewrite Hrun in Hrun'. injection Hrun' as Hout.
  split; [by rewrite Hout|].
  unfold run_model. rewrite Hrun. simpl. by rewrite Hout.
Qed.

End NoVolume.

Section UtilizationFloor.
Context {num : Type} `{PyNum num}.
Local Open Scope py_scope.

(** The run reads the utilization rate only through its clamped value. *)
Lemma run_utilization (cfg : ModelConfig num) (u : num) :
  run (set_utilization_rate cfg u)
  = (total_proj ← _projects_per_year cfg;
     idx ← month_index cfg;
     records ← for_each (archetypes cfg) (λ records arch,
       _run_archetype cfg arch (total_proj * portfolio_share arch) idx
         (fmax u lit_0_01) records) [];
     Ok {| run_monthly := records; run_projects_per_year := total_proj |}).
Proof. done. Qed.

(** A utilization rate below 0.01 is replaced by 0.01: the whole result of
    the model is the one of a utilization rate of exactly 0.01, so the FTE
    columns are never divided by zero or by a negative rate. *)
Theorem utilization_floor (cfg : ModelConfig num) (u : num) :
  (u <? lit_0_01) = true →
  run (set_utilization_rate cfg u) = run (set_utilization_rate cfg lit_0_01)
  ∧ run_model (set_utilization_rate cfg u)
    = run_model (set_utilization_rate cfg lit_0_01).
Proof.
  intros Hu.
  assert (run (set_utilization_rate cfg u)
          = run (set_utilization_rate cfg lit_0_01)) as Hrun.
  { rewrite !run_utilization. unfold fmax. rewrite Hu.
    by destruct (lit_0_01 <? lit_0_01). }
  split; [exact Hrun|]. unfold run_model. by rewrite Hrun.
Qed.

End UtilizationFloor.

Section IntakeVolume.
Local Open Scope Q_scope.

Lemma tail_months_nonneg {num : Type} (cfg : ModelConfig num) :
  (0 ≤ tail_months_of cfg)%Z.
Proof.
  unfold tail_months_of.
  assert (∀ (l : list (Archetype num)) (f : Archetype num → Z) (acc : Z),
    (acc ≤ fold_left (λ t a, Z.max t (f a)) l acc)%Z) as Hmono.
  { induction l as [|a l IH]; intros f acc; simpl; [lia|].
    etrans; [|apply IH]. lia. }
  apply (Hmono (archetypes cfg)
    (λ a, map_fold (λ sn sp acc,
       if bool_decide (sn ∈ pipeline_stages cfg)
       then (acc + duration_months sp)%Z else acc) 0%Z (stages a))).
Qed.

(** Every month of an intake year is in the month index. *)
Lemma intake_year_in_index {num : Type} (cfg : ModelConfig num)
    (idx : list Z) (y m : Z) :
  month_index cfg = Ok idx →
  (start_year cfg ≤ y ≤ end_year cfg)%Z →
  m ∈ range (12 * y) (12 * y + 12) → m ∈ idx.
Proof.
  rewrite month_index_total. intros [= <-] Hy Hm.
  pose proof (tail_months_nonneg cfg).
  unfold date_range, range in *. apply elem_of_seqZ in Hm.
  apply elem_of_seqZ. lia.
Qed.

(** In exact arithmetic, spreading the intake over the first months of
    the year keeps the yearly volume: in every intake year the direct
    starts of a stage add up to the archetype's projects times the stage's
    share of the mix, when that is positive, and to zero otherwise. *)
Theorem yearly_intake_volume (cfg : ModelConfig Q) (ap : Q) (idx : list Z)
    (i : nat) (sname : string) (starts : Series Q) (y : Z) :
  (1 ≤ intake_spread_months cfg ≤ 12)%Z →
  month_index cfg = Ok idx →
  (start_year cfg ≤ y ≤ end_year cfg)%Z →
  stage_starts cfg ap idx i sname None = Ok starts →
  let direct_n := ap * default 0 (stage_mix cfg !! sname) in
  sum_of (map (loc starts) (range (12 * y) (12 * y + 12)))
  == (if Qltb 0 direct_n then direct_n else 0).
Proof.
  intros Hism Hidx Hy Hst direct_n.
  unfold stage_starts in Hst. cbv zeta in Hst. simpl in Hst.
  fold direct_n in Hst. destruct (Qltb 0 direct_n) eqn:Hpos.
  - rewrite direct_starts_closed in Hst by lia. simpl in Hst.
    injection Hst as <-. unfold new_series. rewrite map_map. simpl.
    set (x := direct_n / inject_Z (Z.max (intake_spread_months cfg) 1)).
    rewrite (sum_of_map_equiv _ (λ l,
      if ((12 * y <=? l) && (l <? 12 * y + intake_spread_months cfg))%Z
      then 0 + x else 0)).
    + rewrite range_window_count. unfold months_in_index.
      replace (Z.max 0 (Z.min (12 * y + 12)
                          (12 * y + intake_spread_months cfg)
                        - Z.max (12 * y) (12 * y)))
        with (intake_spread_months cfg) by lia.
      unfold x. replace (Z.max (intake_spread_months cfg) 1)
        with (intake_spread_months cfg) by lia.
      field. intros H0.
      assert (0 < inject_Z (intake_spread_months cfg)) as Hlt
        by (apply inject_Z_pos; lia).
      rewrite H0 in Hlt. by apply Qlt_irrefl in Hlt.
    + intros m Hm.
      rewrite (loc_tabulate (λ l, if is_intake_month cfg l then 0 + x else 0))
        by exact (intake_year_in_index cfg idx y m Hidx Hy Hm).
      unfold is_intake_month. unfold range in Hm. apply elem_of_seqZ in Hm.
      assert ((m / 12 = y)%Z) as ->
        by (symmetry; apply Z.div_unique with (m - 12 * y)%Z; lia).
      assert ((m mod 12 = m - 12 * y)%Z) as ->
        by (symmetry; apply Z.mod_unique with y; lia).
      destruct (Z.leb_spec (start_year cfg) y); [|lia].
      destruct (Z.leb_spec y (end_year cfg)); [|lia].
      destruct (Z.leb_spec (12 * y) m); [|lia]. simpl.
      destruct (Z.ltb_spec (m - 12 * y) (intake_spread_months cfg)),
        (Z.ltb_spec m (12 * y + intake_spread_months cfg)); try lia; done.
  - simpl in Hst. injection Hst as <-.
    rewrite (sum_of_map_equiv _ (λ _, 0 * 0)).
    + rewrite (sum_of_map_scale 0 (λ _, 0)). ring.
    + intros m Hm. unfold new_series.
      rewrite (loc_tabulate (λ _, 0)) by exact (intake_year_in_index cfg idx y m Hidx Hy Hm).
      ring.
Qed.

End IntakeVolume.

Section SteadyState.
Context {num : Type} `{PyNum num}.
Local Open Scope py_scope.

Lemma build_annual_summary_rows (monthly_ : list (MonthlyRecord num))
    (cfg : ModelConfig num) :
  monthly_ ≠ [] →
  _build_annual_summary monthly_ cfg
  = map (annual_row monthly_) (range (start_year cfg) (end_year cfg + 1)).
Proof.
  intros Hne. unfold _build_annual_summary.
  destruct monthly_ as [|r rest]; [done|].
  by rewrite (fold_left_snoc_map (annual_row (r :: rest))).
Qed.

Lemma of_year_nonempty (monthly_ : list (MonthlyRecord num)) (yr : Z) :
  of_year monthly_ yr ≠ [] → monthly_ ≠ [].
Proof. by intros Hne ->. Qed.

(** The steady state and the annual summary agree: the year the steady
    state is taken from ([end_year], or [end_year - 1] when [end_year] has
    no record) has a row in the annual summary, at the position of the
    year, whose average, minimum and maximum are the steady-state values
    rounded to one decimal. *)
Theorem steady_state_is_annual_row (monthly_ : list (MonthlyRecord num))
    (cfg : ModelConfig num) (y : Z) :
  (y = end_year cfg ∧ of_year monthly_ y ≠ [])
  ∨ (y = (end_year cfg - 1)%Z ∧ of_year monthly_ (end_year cfg) = []
     ∧ of_year monthly_ y ≠ []) →
  (start_year cfg ≤ y)%Z →
  ∃ row,
    _build_annual_summary monthly_ cfg !! Z.to_nat (y - start_year cfg)
    = Some row
    ∧ Year row = y
    ∧ Avg_monthly_FTE row = round1 (_steady_state monthly_ cfg).1.1
    ∧ Min_monthly_FTE row = round1 (_steady_state monthly_ cfg).1.2
    ∧ Max_monthly_FTE row = round1 (_steady_state monthly_ cfg).2.
Proof.
  intros Hy Hstart.
  assert (of_year monthly_ y ≠ [] ∧ (y ≤ end_year cfg)%Z) as [Hne Hend]
    by (destruct Hy as [[-> ?]|(-> & _ & ?)]; split; [done|lia|done|lia]).
  exists (annual_row monthly_ y).
  rewrite build_annual_summary_rows by (by eapply of_year_nonempty).
  split.
  { rewrite list_lookup_fmap. unfold range.
    rewrite lookup_seqZ_lt by lia. simpl. do 2 f_equal. lia. }
  assert (_steady_state monthly_ cfg
          = (mean (col_total (groupby_month (of_year monthly_ y))),
             col_min (col_total (groupby_month (of_year monthly_ y))),
             col_max (col_total (groupby_month (of_year monthly_ y)))))
    as ->.
  { unfold _steady_state.
    destruct monthly_ as [|r rest] eqn:Hm; [done|]. rewrite <- Hm in *.
    destruct Hy as [[-> Hy]|(-> & Hlast & Hy)].
    - by destruct (of_year monthly_ (end_year cfg)).
    - rewrite Hlast. by destruct (of_year monthly_ (end_year cfg - 1)). }
  unfold annual_row. by destruct (of_year monthly_ y).
Qed.

End SteadyState.

Section Statistics.
Local Open Scope Q_scope.

Lemma fold_fmin_le (l : list Q) (a : Q) :
  fold_left fmin l a <= a ∧ Forall (λ x, fold_left fmin l a <= x) l.
Proof.
  revert a. induction l as [|x l IH]; intros a; simpl.
  - split; [apply Qle_refl|constructor].
  - destruct (IH (fmin a x)) as [Hacc Hall].
    assert (fmin a x <= a ∧ fmin a x <= x) as [Ha Hx].
    { unfold fmin. simpl. destruct (Qltb x a) eqn:Hlt.
      - apply Qltb_lt in Hlt. split; [by apply Qlt_le_weak|apply Qle_refl].
      - apply Qltb_ge in Hlt. split; [apply Qle_refl|done]. }
    split; [by eapply Qle_trans|]. constructor; [by eapply Qle_trans|done].
Qed.

Lemma fold_fmax_ge (l : list Q) (a : Q) :
  a <= fold_left fmax l a ∧ Forall (λ x, x <= fold_left fmax l a) l.
Proof.
  revert a. induction l as [|x l IH]; intros a; simpl.
  - split; [apply Qle_refl|constructor].
  - destruct (IH (fmax a x)) as [Hacc Hall].
    assert (a <= fmax a x ∧ x <= fmax a x) as [Ha Hx].
    { unfold fmax. simpl. destruct (Qltb a x) eqn:Hlt.
      - apply Qltb_lt in Hlt. split; [by apply Qlt_le_weak|apply Qle_refl].
      - apply Qltb_ge in Hlt. split; [apply Qle_refl|done]. }
    split; [by eapply Qle_trans|]. constructor; [by eapply Qle_trans|done].
Qed.

Lemma col_min_le (l : list Q) : Forall (λ x, col_min l <= x) l.
Proof.
  destruct l as [|x l]; [constructor|]. simpl.
  destruct (fold_fmin_le l x). by constructor.
Qed.

Lemma col_max_ge (l : list Q) : Forall (λ x, x <= col_max l) l.
Proof.
  destruct l as [|x l]; [constructor|]. simpl.
  destruct (fold_fmax_ge l x). by constructor.
Qed.

Lemma sum_of_lower (c : Q) (l : list Q) :
  Forall (λ x, c <= x) l → inject_Z (Z.of_nat (length l)) * c <= sum_of l.
Proof.
  induction 1 as [|x l Hx _ IH].
  - simpl. rewrite sum_of_nil. rewrite Qmult_0_l. apply Qle_refl.
  - rewrite sum_of_cons. simpl length. rewrite Nat2Z.inj_succ.
    unfold Z.succ. rewrite inject_Z_plus.
    assert ((inject_Z (Z.of_nat (length l)) + inject_Z 1) * c
            == c + inject_Z (Z.of_nat (length l)) * c) as -> by ring.
    by apply Qplus_le_compat.
Qed.

Lemma sum_of_upper (c : Q) (l : list Q) :
  Forall (λ x, x <= c) l → sum_of l <= inject_Z (Z.of_nat (length l)) * c.
Proof.
  induction 1 as [|x l Hx _ IH].
  - simpl. rewrite sum_of_nil. rewrite Qmult_0_l. apply Qle_refl.
  - rewrite sum_of_cons. simpl length. rewrite Nat2Z.inj_succ.
    unfold Z.succ. rewrite inject_Z_plus.
    assert ((inject_Z (Z.of_nat (length l)) + inject_Z 1) * c
            == c + inject_Z (Z.of_nat (length l)) * c) as -> by ring.
    by apply Qplus_le_compat.
Qed.

(** The mean of a column lies between its minimum and its maximum. *)
Lemma mean_between (l : list Q) : col_min l <= mean l ∧ mean l <= col_max l.
Proof.
  destruct l as [|x l]; [by vm_compute|].
  remember (x :: l) as L eqn:HL.
  assert (0 < inject_Z (Z.of_nat (length L))) as Hn
    by (apply inject_Z_pos; subst L; simpl; lia).
  pose proof (sum_of_lower (col_min L) L (col_min_le L)) as Hlo.
  pose proof (sum_of_upper (col_max L) L (col_max_ge L)) as Hhi.
  unfold mean. fold (sum_of L).
  change (col_min L <= sum_of L / inject_Z (Z.of_nat (length L))
          ∧ sum_of L / inject_Z (Z.of_nat (length L)) <= col_max L).
  split.
  - apply Qle_shift_div_l; [done|]. by rewrite Qmult_comm.
  - apply Qle_shift_div_r; [done|]. by rewrite Qmult_comm.
Qed.

Lemma round_half_even_range (q : Q) :
  (round_half_even q = Qfloor q ∧ q - inject_Z (Qfloor q) <= 1 # 2)
  ∨ (round_half_even q = (Qfloor q + 1)%Z ∧ 1 # 2 <= q - inject_Z (Qfloor q)).
Proof.
  unfold round_half_even.
  destruct (q - inject_Z (Qfloor q) ?= 1 # 2) eqn:Hc.
  - apply Qeq_alt in Hc.
    destruct (Z.even (Qfloor q)); [left|right]; split; try done;
      rewrite Hc; apply Qle_refl.
  - apply Qlt_alt in Hc. left. split; [done|by apply Qlt_le_weak].
  - apply Qgt_alt in Hc. right. split; [done|by apply Qlt_le_weak].
Qed.

(** Rounding half to even is monotone. *)
Lemma round_half_even_mono (a b : Q) :
  a <= b → (round_half_even a ≤ round_half_even b)%Z.
Proof.
  intros Hab. pose proof (Qfloor_resp_le _ _ Hab) as Hfl.
  destruct (Z.eq_dec (Qfloor a) (Qfloor b)) as [Heq|Hne].
  - unfold round_half_even. rewrite <- Heq.
    assert (a - inject_Z (Qfloor a) <= b - inject_Z (Qfloor a)) as Hd
      by (apply Qplus_le_compat; [done|apply Qle_refl]).
    destruct (a - inject_Z (Qfloor a) ?= 1 # 2) eqn:Ha,
      (b - inject_Z (Qfloor a) ?= 1 # 2) eqn:Hb;
      try (destruct (Z.even (Qfloor a))); try lia; exfalso;
      first [apply Qeq_alt in Ha | apply Qgt_alt in Ha];
      first [apply Qeq_alt in Hb | apply Qlt_alt in Hb];
      apply (Qlt_irrefl (1 # 2));
      first [ exact (Qlt_trans _ _ _ (Qlt_le_trans _ _ _ Ha Hd) Hb)
            | rewrite Ha in Hd; exact (Qle_lt_trans _ _ _ Hd Hb)
            | rewrite Hb in Hd; exact (Qlt_le_trans _ _ _ Ha Hd) ].
  - destruct (round_half_even_range a) as [[-> _]|[-> _]],
      (round_half_even_range b) as [[-> _]|[-> _]]; lia.
Qed.

Lemma Qround1_mono (a b : Q) : a <= b → Qround1 a <= Qround1 b.
Proof.
  intros Hab. unfold Qround1. apply Qmult_le_compat_r; [|done].
  rewrite <- Zle_Qle. apply round_half_even_mono.
  by apply Qmult_le_compat_r.
Qed.

(** The minimum, the average and the maximum are in this order, in the
    steady state and in every row of the annual summary, where each of them
    has been rounded to one decimal. *)
Theorem summary_statistics_ordered (monthly_ : list (MonthlyRecord Q))
    (cfg : ModelConfig Q) :
  ((_steady_state monthly_ cfg).1.2 <= (_steady_state monthly_ cfg).1.1
   ∧ (_steady_state monthly_ cfg).1.1 <= (_steady_state monthly_ cfg).2)
  ∧ Forall (λ row, Min_monthly_FTE row <= Avg_monthly_FTE row
                   ∧ Avg_monthly_FTE row <= Max_monthly_FTE row)
      (_build_annual_summary monthly_ cfg).
Proof.
  split.
  - unfold _steady_state. destruct monthly_ as [|r rest]; [done|].
    destruct (of_year (r :: rest) (end_year cfg)) as [|r1 rest1].
    + destruct (of_year (r :: rest) (end_year cfg - 1)) as [|r2 rest2];
        [done|]. simpl. apply mean_between.
    + simpl. apply mean_between.
  - destruct monthly_ as [|r rest] eqn:Hm; [constructor|]. rewrite <- Hm.
    rewrite build_annual_summary_rows by (by rewrite Hm).
    apply Forall_forall. intros row [yr [-> _]]%list_elem_of_fmap.
    unfold annual_row. destruct (of_year monthly_ yr) as [|r1 rest1]; [done|].
    simpl.
    destruct (mean_between (col_total (groupby_month (r1 :: rest1)))).
    split; by apply Qround1_mono.
Qed.

End Statistics.

Section ExpectedCost.
Local Open Scope Q_scope.

Lemma expected_cost_suffix_nonneg (arch : Archetype Q)
    (conv_rates : gmap string Q) (suffix : list string) :
  (∀ s sp, stages arch !! s = Some sp → 0 <= cost_millions sp) →
  0 <= expected_cost_suffix arch conv_rates suffix.
Proof.
  intros Hcost. induction suffix as [|sname rest IH]; simpl; [done|].
  destruct (stages arch !! sname) as [sp|] eqn:Hsp; [|done].
  pose proof (Hcost sname sp Hsp) as Hc.
  destruct rest as [|s' rest']; [done|].
  destruct (Qltb 0 (default 0 (conv_rates !! sname))) eqn:Hconv; [|done].
  apply Qltb_lt in Hconv.
  change (0 <= cost_millions sp
               + default 0 (conv_rates !! sname)
                 * expected_cost_suffix arch conv_rates (s' :: rest')).
  rewrite <- (Qplus_0_l 0) at 1. apply Qplus_le_compat; [done|].
  apply Qmult_le_0_compat; [by apply Qlt_le_weak|exact IH].
Qed.

(** With non-negative stage costs, the expected cost of a project entering
    at a stage is never negative and never below the cost of that stage;
    it is exactly that cost when nothing converts out of the stage: at the
    last stage, with a conversion rate that is not positive, or when the
    archetype has no parameters for the next stage. *)
Theorem expected_cost_bounds (arch : Archetype Q) (stages_ : list string)
    (conv_rates : gmap string Q) (i : nat) (sname : string)
    (sp : StageParams Q) :
  (∀ s sp, stages arch !! s = Some sp → 0 <= cost_millions sp) →
  stages_ !! i = Some sname →
  stages arch !! sname = Some sp →
  let E := _expected_cost_from_stage arch stages_ conv_rates in
  0 <= E i
  ∧ cost_millions sp <= E i
  ∧ (length stages_ = S i ∨ default 0 (conv_rates !! sname) <= 0
     ∨ (∃ s', stages_ !! S i = Some s' ∧ stages arch !! s' = None) →
     E i == cost_millions sp)
  ∧ (∀ s', stages_ !! S i = Some s' →
       0 < default 0 (conv_rates !! sname) →
       E i == cost_millions sp + default 0 (conv_rates !! sname) * E (S i)).
Proof.
  intros Hcost Hi Hsp E. unfold E, _expected_cost_from_stage.
  split; [by apply expected_cost_suffix_nonneg|].
  rewrite (drop_S _ _ _ Hi).
  pose proof (expected_cost_suffix_nonneg arch conv_rates (drop (S i) stages_)
    Hcost) as Hrest.
  simpl. rewrite Hsp.
  destruct (drop (S i) stages_) as [|s1 rest] eqn:Hdrop.
  - split; [apply Qle_refl|]. split; [done|].
    intros s' Hs'. apply lookup_lt_Some in Hs'.
    apply (f_equal length) in Hdrop. rewrite length_drop in Hdrop.
    simpl in Hdrop. lia.
  - assert (stages_ !! S i = Some s1) as Hs1.
    { rewrite <- (Nat.add_0_r (S i)), <- lookup_drop. by rewrite Hdrop. }
    destruct (Qltb 0 (default 0 (conv_rates !! sname))) eqn:Hconv.
    + apply Qltb_lt in Hconv. split; [|split].
      * rewrite <- (Qplus_0_r (cost_millions sp)) at 1.
        apply Qplus_le_compat; [apply Qle_refl|].
        apply Qmult_le_0_compat; [by apply Qlt_le_weak|exact Hrest].
      * intros [Hlen|[Hle|(s' & Hs' & Hnone)]].
        -- apply lookup_lt_Some in Hs1. lia.
        -- exfalso. apply (Qlt_irrefl 0). by eapply Qlt_le_trans.
        -- rewrite Hs1 in Hs'. injection Hs' as ->. simpl. rewrite Hnone. ring.
      * intros s' _ _. reflexivity.
    + apply Qltb_ge in Hconv. split; [apply Qle_refl|]. split; [done|].
      intros s' _ Hpos. exfalso. apply (Qlt_irrefl 0). by eapply Qlt_le_trans.
Qed.

(** With a non-negative budget and an overhead of at most 100 percent the
    engine returns a number of projects per year that is not negative,
    whatever the costs: a weighted cost that is not positive gives zero. *)
Theorem projects_per_year_nonneg (cfg : ModelConfig Q) :
  0 <= total_budget_m cfg → overhead_pct cfg <= 1 →
  ∃ p, _projects_per_year cfg = Ok p ∧ 0 <= p.
Proof.
  intros Hb Ho. rewrite projects_per_year_returns. eexists. split; [done|].
  destruct (Qle_bool (_weighted_cost_per_project cfg) 0) eqn:Hwc; [done|].
  assert (0 < _weighted_cost_per_project cfg) as Hpos.
  { apply Qnot_le_lt. intros Hle. apply Qle_bool_iff in Hle. congruence. }
  apply Qle_shift_div_l; [done|]. rewrite Qmult_0_l.
  unfold _available_budget. simpl.
  apply Qmult_le_0_compat; [done|].
  unfold Qminus. rewrite <- (Qplus_opp_r (overhead_pct cfg)).
  apply Qplus_le_compat; [done|apply Qle_refl].
Qed.

End ExpectedCost.

Section SyncArchetypes.
Context {num : Type} `{PyNum num}.
Local Open Scope py_scope.

Lemma add_missing_lookup (l : list string)
    (st : gmap string (StageParams num)) (s : string) :
  fold_left (λ st sname,
    if bool_decide (is_Some (st !! sname)) then st
    else <[ sname := default_stage_params ]> st) l st !! s
  = match st !! s with
    | Some sp => Some sp
    | None => if bool_decide (s ∈ l) then Some default_stage_params else None
    end.
Proof.
  revert st. induction l as [|x l IH]; intros st; simpl.
  - by destruct (st !! s).
  - rewrite IH. destruct (decide (x = s)) as [->|Hne].
    + destruct (st !! s) as [sp|] eqn:Hs.
      * rewrite bool_decide_eq_true_2 by done. by rewrite Hs.
      * rewrite bool_decide_eq_false_2 by (by intros [? ?]).
        rewrite lookup_insert_eq.
        by rewrite (bool_decide_eq_true_2 (s ∈ s :: l)) by left.
    + assert ((if bool_decide (is_Some (st !! x)) then st
               else <[ x := default_stage_params ]> st) !! s = st !! s) as ->.
      { destruct (bool_decide (is_Some (st !! x))); [done|].
        by rewrite lookup_insert_ne. }
      destruct (st !! s); [done|].
      destruct (decide (s ∈ l)) as [Hin|Hnin].
      * rewrite !bool_decide_eq_true_2; [done|by right|done].
      * rewrite !bool_decide_eq_false_2; [done| |done].
        intros [?|?]%elem_of_cons; [congruence|done].
Qed.

Lemma delete_all_lookup (ks : list string)
    (st : gmap string (StageParams num)) (s : string) :
  fold_left (λ st k, delete k st) ks st !! s
  = if bool_decide (s ∈ ks) then None else st !! s.
Proof.
  revert st. induction ks as [|k ks IH]; intros st; simpl; [done|].
  rewrite IH. destruct (decide (s ∈ ks)) as [Hin|Hnin].
  - rewrite !bool_decide_eq_true_2; [done|by right|done].
  - rewrite (bool_decide_eq_false_2 (s ∈ ks)) by done.
    destruct (decide (k = s)) as [->|Hne].
    + rewrite lookup_delete_eq. by rewrite bool_decide_eq_true_2 by left.
    + rewrite lookup_delete_ne by done.
      rewrite bool_decide_eq_false_2; [done|].
      intros [?|?]%elem_of_cons; [congruence|done].
Qed.

Lemma rebuild_lookup (l : list string)
    (st ordered : gmap string (StageParams num)) (s : string) :
  fold_left (λ ordered s,
    match st !! s with
    | Some sp => <[ s := sp ]> ordered
    | None => ordered
    end) l ordered !! s
  = if bool_decide (s ∈ l)
    then match st !! s with Some sp => Some sp | None => ordered !! s end
    else ordered !! s.
Proof.
  revert ordered. induction l as [|x l IH]; intros ordered; simpl; [done|].
  rewrite IH. destruct (decide (x = s)) as [->|Hne].
  - rewrite (bool_decide_eq_true_2 (s ∈ s :: l)) by left.
    destruct (st !! s) as [sp|] eqn:Hs.
    + rewrite lookup_insert_eq. by destruct (bool_decide (s ∈ l)).
    + by destruct (bool_decide (s ∈ l)).
  - assert (match st !! x with
            | Some sp => <[ x := sp ]> ordered
            | None => ordered
            end !! s = ordered !! s) as ->.
    { destruct (st !! x); [by rewrite lookup_insert_ne|done]. }
    destruct (decide (s ∈ l)) as [Hin|Hnin].
    + rewrite !bool_decide_eq_true_2; [done|by right|done].
    + rewrite !bool_decide_eq_false_2; [done| |done].
      intros [?|?]%elem_of_cons; [congruence|done].
Qed.

(** The repaired dict has exactly the stages of the pipeline as keys, with
    the parameters the archetype had, or the default ones. *)
Lemma sync_stages_lookup (pipeline : list string)
    (st : gmap string (StageParams num)) (s : string) :
  sync_stages pipeline st !! s
  = if bool_decide (s ∈ pipeline)
    then Some (default default_stage_params (st !! s)) else None.
Proof.
  unfold sync_stages. rewrite rebuild_lookup, lookup_empty.
  case_bool_decide as Hin; [|done].
  rewrite delete_all_lookup.
  rewrite bool_decide_eq_false_2.
  - rewrite add_missing_lookup. destruct (st !! s); [done|].
    by rewrite bool_decide_eq_true_2.
  - rewrite list_elem_of_In, filter_In. intros [_ Hneg].
    by rewrite bool_decide_eq_true_2 in Hneg.
Qed.

Lemma sync_stages_idemp (pipeline : list string)
    (st : gmap string (StageParams num)) :
  sync_stages pipeline (sync_stages pipeline st) = sync_stages pipeline st.
Proof.
  apply map_eq. intros s. rewrite !sync_stages_lookup.
  by case_bool_decide.
Qed.

(** After [_sync_archetypes] every archetype keeps its name and share and
    has parameters for exactly the stages of the pipeline: those it had,
    and [StageParams(9, 8.0, 3.0, 2.0)] for the stages it lacked. *)
Theorem sync_archetypes_stages (cfg : ModelConfig num) :
  pipeline_stages (_sync_archetypes cfg) = pipeline_stages cfg
  ∧ Forall2 (λ arch arch',
      name arch' = name arch
      ∧ portfolio_share arch' = portfolio_share arch
      ∧ ∀ s, stages arch' !! s
             = if bool_decide (s ∈ pipeline_stages cfg)
               then Some (default default_stage_params (stages arch !! s))
               else None)
      (archetypes cfg) (archetypes (_sync_archetypes cfg)).
Proof.
  split; [done|]. simpl. apply Forall2_fmap_r, Forall_Forall2_diag.
  apply Forall_forall. intros arch _. simpl.
  split; [done|]. split; [done|]. intros s. apply sync_stages_lookup.
Qed.

(** [_sync_archetypes] is idempotent, and a configuration it has repaired
    has no gap: every archetype has parameters for every stage of the
    pipeline, so no step of the runner resets the completions. *)
Theorem sync_archetypes_idempotent (cfg : ModelConfig num) :
  _sync_archetypes (_sync_archetypes cfg) = _sync_archetypes cfg
  ∧ ∀ arch sname arch_projects idx utilization prev records i,
      arch ∈ archetypes (_sync_archetypes cfg) →
      sname ∈ pipeline_stages cfg →
      is_Some (stages arch !! sname)
      ∧ ∀ st, run_stage (_sync_archetypes cfg) arch arch_projects idx
                utilization (prev, records) (i, sname) = Ok st →
              is_Some st.1.
Proof.
  split.
  - unfold _sync_archetypes. simpl. rewrite map_map.
    rewrite (map_ext _ (λ arch,
      {| name := name arch; portfolio_share := portfolio_share arch;
         stages := sync_stages (pipeline_stages cfg) (stages arch) |}));
      [done|].
    intros arch. simpl. by rewrite sync_stages_idemp.
  - intros arch sname ap idx u prev records i Harch Hs.
    simpl in Harch. apply list_elem_of_fmap in Harch as [a [-> _]].
    simpl. rewrite sync_stages_lookup, bool_decide_eq_true_2 by done.
    split; [by eexists|]. intros st.
    destruct (stage_starts _ _ _ _ _ _); simpl; [|done].
    intros [= <-]. by eexists.
Qed.

End SyncArchetypes.

Section MonthIndex.
Context {num : Type}.
Local Open Scope Z_scope.

Lemma sum_with_new_key (l : list string) (g : string → Z) (i : string)
    (v : Z) :
  NoDup l → g i = 0 →
  foldr Z.add 0 (map (λ s, if decide (s = i) then v else g s) l)
  = foldr Z.add 0 (map g l) + (if bool_decide (i ∈ l) then v else 0).
Proof.
  intros Hnd Hg. induction Hnd as [|x l Hx Hnd IH]; simpl; [done|].
  rewrite IH. destruct (decide (x = i)) as [->|Hne].
  - rewrite (bool_decide_eq_true_2 (i ∈ i :: l)) by left.
    rewrite (bool_decide_eq_false_2 (i ∈ l)) by done. lia.
  - destruct (decide (i ∈ l)) as [Hin|Hnin].
    + rewrite !bool_decide_eq_true_2; [lia|by right|done].
    + rewrite !bool_decide_eq_false_2; [lia| |done].
      intros [?|?]%elem_of_cons; [congruence|done].
Qed.

(** With no stage named twice in the pipeline, the duration summed over the
    items of the [stages] dict is the duration summed along the pipeline. *)
Lemma arch_dur_pipeline (cfg : ModelConfig num) (a : Archetype num) :
  NoDup (pipeline_stages cfg) →
  map_fold (λ sn sp acc,
    if bool_decide (sn ∈ pipeline_stages cfg)
    then acc + duration_months sp else acc) 0 (stages a)
  = pipeline_duration cfg a.
Proof.
  intros Hnd. unfold pipeline_duration.
  apply (map_fold_weak_ind (λ r (m : gmap string (StageParams num)),
    r = foldr Z.add 0
          (map (λ s, default 0 (duration_months <$> m !! s))
             (pipeline_stages cfg)))).
  - clear Hnd. generalize (pipeline_stages cfg).
    induction l as [|s l IH]; simpl; [done|].
    rewrite lookup_empty. simpl. by rewrite <- IH.
  - intros i x m r Hi ->.
    rewrite (map_ext (λ s, default 0 (duration_months <$> <[i:=x]> m !! s))
      (λ s, if decide (s = i) then duration_months x
            else default 0 (duration_months <$> m !! s))).
    + rewrite sum_with_new_key by (by rewrite ?Hi).
      destruct (bool_decide (i ∈ pipeline_stages cfg)); lia.
    + intros s. destruct (decide (s = i)) as [->|Hne].
      * by rewrite lookup_insert_eq.
      * by rewrite lookup_insert_ne.
Qed.

Lemma tail_months_covers (cfg : ModelConfig num) (a : Archetype num) :
  NoDup (pipeline_stages cfg) → a ∈ archetypes cfg →
  pipeline_duration cfg a ≤ tail_months_of cfg.
Proof.
  intros Hnd Ha. unfold tail_months_of.
  assert (∀ (l : list (Archetype num)) (f : Archetype num → Z) (acc : Z),
    acc ≤ fold_left (λ t a, Z.max t (f a)) l acc
    ∧ (a ∈ l → f a ≤ fold_left (λ t a, Z.max t (f a)) l acc)) as Hmax.
  { induction l as [|b l IH]; intros f acc; simpl.
    - split; [lia|by intros ?%elem_of_nil].
    - destruct (IH f (Z.max acc (f b))) as [Hacc Hin]. split; [lia|].
      intros [->|Hl]%elem_of_cons; [lia|by apply Hin]. }
  rewrite <- arch_dur_pipeline by done.
  by apply (Hmax (archetypes cfg)
    (λ a, map_fold (λ sn sp acc,
       if bool_decide (sn ∈ pipeline_stages cfg)
       then acc + duration_months sp else acc) 0 (stages a))).
Qed.

(** The month index runs from January of [start_year] without a gap and
    is long enough for every archetype: with no stage named twice in the
    pipeline, a project that starts in a month of the intake years is in
    the index for all the months it spends in the pipeline, and in the
    month it leaves it. *)
Theorem month_index_covers_pipeline (cfg : ModelConfig num)
    (a : Archetype num) :
  NoDup (pipeline_stages cfg) → a ∈ archetypes cfg →
  ∃ idx,
    month_index cfg = Ok idx
    ∧ idx = range (12 * start_year cfg)
              (12 * end_year cfg + 12 + tail_months_of cfg)
    ∧ 0 ≤ tail_months_of cfg
    ∧ ∀ m d, 12 * start_year cfg ≤ m < 12 * end_year cfg + 12 →
             0 ≤ d ≤ pipeline_duration cfg a → (m + d) ∈ idx.
Proof.
  intros Hnd Ha. rewrite month_index_total. eexists. split; [done|].
  pose proof (tail_months_nonneg cfg) as Htail.
  pose proof (tail_months_covers cfg a Hnd Ha) as Hcov.
  split; [unfold date_range; f_equal; lia|]. split; [done|].
  intros m d Hm Hd. unfold date_range, range. apply elem_of_seqZ. lia.
Qed.

End MonthIndex.

Section CompletionsSum.
Local Open Scope Q_scope.

Lemma completions_at_cons (e : Z * Q) (starts : Series Q) (dur m' : Z) :
  completions_at (e :: starts) dur m'
  == (if ((e.1 + dur <=? m') && (m' <? e.1 + dur + 1))%Z
      then (if non_negligible e.2 then e.2 else 0) else 0)
     + completions_at starts dur m'.
Proof.
  unfold completions_at, completing_at. simpl.
  destruct (non_negligible e.2); simpl;
    destruct (Z.eqb_spec (e.1 + dur) m'), (Z.leb_spec (e.1 + dur) m'),
      (Z.ltb_spec m' (e.1 + dur + 1)); simpl; try lia;
    first [apply sum_of_cons | ring].
Qed.

(** Every non-negligible start completes exactly once, in the month
    [duration] months later, and is counted in the completions if and only
    if that month is in the index: the completions summed over a contiguous
    index are the non-negligible starts that land in it. *)
Theorem completions_conserved (starts : Series Q) (dur lo hi : Z) :
  series_sum (stage_completions starts dur (range lo hi))
  == sum_of (map snd
       (List.filter (λ e, (lo <=? e.1 + dur)%Z && (e.1 + dur <? hi)%Z)
          (counted starts))).
Proof.
  rewrite stage_completions_closed. unfold series_sum. rewrite map_map. simpl.
  induction starts as [|e starts IH].
  - simpl. rewrite sum_of_nil.
    rewrite (sum_of_map_equiv _ (λ _, 0 * 0)).
    + rewrite (sum_of_map_scale 0 (λ _, 0)). ring.
    + intros m' _. unfold completions_at. simpl. rewrite sum_of_nil. ring.
  - rewrite (sum_of_map_equiv _ (λ m',
      (if ((e.1 + dur <=? m') && (m' <? e.1 + dur + 1))%Z
       then (if non_negligible e.2 then e.2 else 0) else 0)
      + completions_at starts dur m')) by (intros m' _; apply completions_at_cons).
    rewrite sum_of_map_plus, IH, range_window_count.
    unfold counted, months_in_index. simpl.
    destruct (non_negligible e.2); simpl.
    + destruct (Z.leb_spec lo (e.1 + dur)), (Z.ltb_spec (e.1 + dur) hi); simpl.
      * rewrite sum_of_cons.
        replace (Z.max 0 (Z.min hi (e.1 + dur + 1) - Z.max lo (e.1 + dur)))
          with 1%Z by lia. ring.
      * replace (Z.max 0 (Z.min hi (e.1 + dur + 1) - Z.max lo (e.1 + dur)))
          with 0%Z by lia. ring.
      * replace (Z.max 0 (Z.min hi (e.1 + dur + 1) - Z.max lo (e.1 + dur)))
          with 0%Z by lia. ring.
      * replace (Z.max 0 (Z.min hi (e.1 + dur + 1) - Z.max lo (e.1 + dur)))
          with 0%Z by lia. ring.
    + ring.
Qed.

End CompletionsSum.

(** ** The further properties on concrete inputs *)

Lemma ramp_never_adds_witness :
  (0 < 3)%Z
  ∧ Forall2 (λ p q : Z * Q, p.1 = q.1 ∧ (p.2 <= q.2)%Q)
      (_active_stock Variants.cohorts 6 Scenario.idx 3)
      (_active_stock Variants.cohorts 6 Scenario.idx 0)
  ∧ (3%Z = 1%Z →
       Forall2 (λ p q : Z * Q, p.1 = q.1 ∧ (p.2 == q.2)%Q)
         (_active_stock Variants.cohorts 6 Scenario.idx 3)
         (_active_stock Variants.cohorts 6 Scenario.idx 0)).
Proof.
  split; [lia|]. apply (ramp_never_adds Variants.cohorts 6 Scenario.idx 3). lia.
Defined.

Lemma person_months_conserved_witness :
  (0 ≤ 0)%Z ∧ (1 ≤ 6)%Z
  ∧ Forall (λ e : Z * Q, (first_of_month 2026 1 ≤ e.1)%Z
                         ∧ (e.1 + 6 ≤ first_of_month 2028 1)%Z)
      (counted Variants.cohorts)
  ∧ (series_sum (_active_stock Variants.cohorts 6
                   (range (first_of_month 2026 1) (first_of_month 2028 1)) 0)
     == inject_Z 6 * sum_of (map snd (counted Variants.cohorts)))%Q.
Proof.
  assert (Forall (λ e : Z * Q, (first_of_month 2026 1 ≤ e.1)%Z
                               ∧ (e.1 + 6 ≤ first_of_month 2028 1)%Z)
            (counted Variants.cohorts)) as Hin.
  { change (counted Variants.cohorts) with Variants.cohorts.
    repeat constructor; simpl; unfold first_of_month; lia. }
  split; [lia|]. split; [lia|]. split; [exact Hin|].
  apply (person_months_conserved Variants.cohorts 6 (first_of_month 2026 1)
           (first_of_month 2028 1) 0); [lia|lia|exact Hin].
Defined.

Lemma direct_intake_placement_witness :
  ∃ out,
    direct_starts Scenario.config_Q (new_series 0%Q Scenario.idx) 2%Q = Ok out
    ∧ out = map (λ p, (p.1, if is_intake_month Scenario.config_Q p.1
                            then fadd p.2 2%Q else p.2))
              (new_series 0%Q Scenario.idx)
    ∧ index out = index (new_series 0%Q Scenario.idx)
    ∧ ∀ l, is_intake_month Scenario.config_Q l = true
           ↔ ∃ y m, (start_year Scenario.config_Q ≤ y
                     ≤ end_year Scenario.config_Q)%Z
                    ∧ (1 ≤ m ≤ intake_spread_months Scenario.config_Q)%Z
                    ∧ l = first_of_month y m.
Proof.
  destruct (direct_starts Scenario.config_Q (new_series 0%Q Scenario.idx)
              2%Q) as [out|e] eqn:Hout.
  - exists out. split; [reflexivity|].
    exact (direct_intake_placement Scenario.config_Q
             (new_series 0%Q Scenario.idx) 2%Q out Hout).
  - exfalso. revert Hout. vm_compute. discriminate.
Defined.

Lemma intake_window_above_twelve_raises_witness :
  (12 < intake_spread_months Variants.wide_intake)%Z
  ∧ (start_year Variants.wide_intake ≤ end_year Variants.wide_intake)%Z
  ∧ Scenario.archetype ∈ archetypes Variants.wide_intake
  ∧ "Early" ∈ pipeline_stages Variants.wide_intake
  ∧ stages (Scenario.archetype (num:=Q)) !! "Early" = Some Scenario.early
  ∧ _projects_per_year Variants.wide_intake = Ok (100000 # 10000)%Q
  ∧ Qltb 0 ((100000 # 10000) * portfolio_share (Scenario.archetype (num:=Q))
            * default 0 (stage_mix Variants.wide_intake !! "Early"))%Q = true
  ∧ run Variants.wide_intake = Raise ValueError
  ∧ run_model Variants.wide_intake = Raise ValueError.
Proof.
  assert (stages (Scenario.archetype (num:=Q)) !! "Early"
          = Some Scenario.early) as H1 by (by vm_compute).
  assert (_projects_per_year Variants.wide_intake = Ok (100000 # 10000)%Q)
    as H2 by (by vm_compute).
  assert (Qltb 0 ((100000 # 10000)
                  * portfolio_share (Scenario.archetype (num:=Q))
                  * default 0 (stage_mix Variants.wide_intake !! "Early"))%Q
          = true) as H3 by (by vm_compute).
  split; [simpl; lia|]. split; [simpl; lia|].
  split; [apply list_elem_of_here|]. split; [apply list_elem_of_here|].
  split; [exact H1|]. split; [exact H2|]. split; [exact H3|].
  apply (intake_window_above_twelve_raises Variants.wide_intake
           Scenario.archetype "Early" Scenario.early (100000 # 10000)%Q);
    [simpl; lia | simpl; lia | apply list_elem_of_here
    | apply list_elem_of_here | exact H1 | exact H2 | exact H3].
Defined.

Lemma monthly_rows_well_formed_witness :
  ∃ out, run Scenario.config_Q = Ok out
    ∧ Forall (λ r,
        row_of_run Scenario.config_Q
          (date_range (first_of_month (start_year Scenario.config_Q) 1)
             (first_of_month (end_year Scenario.config_Q) 12
              + tail_months_of Scenario.config_Q))
          (fmax (utilization_rate Scenario.config_Q) lit_0_01) r
        ∧ rec_year r = year_of (rec_month r)
        ∧ (start_year Scenario.config_Q ≤ rec_year r)%Z)
      (run_monthly out).
Proof.
  destruct (run Scenario.config_Q) as [out|e] eqn:Hrun.
  - exists out. split; [reflexivity|].
    exact (monthly_rows_well_formed Scenario.config_Q out Hrun).
  - exfalso. revert Hrun. vm_compute. discriminate.
Defined.


Lemma no_volume_empty_tables_witness :
  run Variants.no_intake_years
  = Ok {| run_monthly := []; run_projects_per_year := (100000 # 10000)%Q |}
  ∧ no_direct_volume Variants.no_intake_years (100000 # 10000)%Q
  ∧ run_monthly {| run_monthly := @nil (MonthlyRecord Q);
                   run_projects_per_year := (100000 # 10000)%Q |} = []
  ∧ run_model Variants.no_intake_years
    = Ok {| monthly := []; annual_summary := [];
            steady_state_avg := 0%Q; steady_state_min_month := 0%Q;
            steady_state_max_month := 0%Q;
            projects_per_year := (100000 # 10000)%Q |}.
Proof.
  assert (run Variants.no_intake_years
          = Ok {| run_monthly := [];
                  run_projects_per_year := (100000 # 10000)%Q |}) as H1
    by (by vm_compute).
  assert (no_direct_volume Variants.no_intake_years (100000 # 10000)%Q) as H2
    by (right; right; simpl; lia).
  split; [exact H1|]. split; [exact H2|].
  exact (no_volume_empty_tables Variants.no_intake_years _ H1 H2).
Defined.

Lemma utilization_floor_witness :
  Qltb 0 lit_0_01 = true
  ∧ run (set_utilization_rate Scenario.config_Q 0%Q)
    = run (set_utilization_rate Scenario.config_Q lit_0_01)
  ∧ run_model (set_utilization_rate Scenario.config_Q 0%Q)
    = run_model (set_utilization_rate Scenario.config_Q lit_0_01).
Proof.
  split; [reflexivity|].
  exact (utilization_floor Scenario.config_Q 0%Q eq_refl).
Defined.

Lemma yearly_intake_volume_witness :
  (1 ≤ intake_spread_months Scenario.config_Q ≤ 12)%Z
  ∧ month_index Scenario.config_Q = Ok Scenario.idx
  ∧ (start_year Scenario.config_Q ≤ 2026 ≤ end_year Scenario.config_Q)%Z
  ∧ ∃ starts,
      stage_starts Scenario.config_Q 10%Q Scenario.idx 0 "Early" None
      = Ok starts
      ∧ (sum_of (map (loc starts) (range (12 * 2026) (12 * 2026 + 12)))
         == (if Qltb 0 (10 * default 0
                             (stage_mix Scenario.config_Q !! "Early"))
             then 10 * default 0 (stage_mix Scenario.config_Q !! "Early")
             else 0))%Q.
Proof.
  assert (month_index Scenario.config_Q = Ok Scenario.idx) as Hidx
    by (by vm_compute).
  split; [simpl; lia|]. split; [exact Hidx|]. split; [simpl; lia|].
  destruct (stage_starts Scenario.config_Q 10%Q Scenario.idx 0 "Early" None)
    as [starts|e] eqn:Hst.
  - exists starts. split; [reflexivity|].
    apply (yearly_intake_volume Scenario.config_Q 10%Q Scenario.idx 0%nat
             "Early" starts 2026); [simpl; lia | exact Hidx | simpl; lia
             | exact Hst].
  - exfalso. revert Hst. vm_compute. discriminate.
Defined.

Lemma steady_state_is_annual_row_witness :
  ((2026%Z = end_year Scenario.config_Q
    ∧ of_year Variants.one_row 2026 ≠ [])
   ∨ (2026%Z = (end_year Scenario.config_Q - 1)%Z
      ∧ of_year Variants.one_row (end_year Scenario.config_Q) = []
      ∧ of_year Variants.one_row 2026 ≠ []))
  ∧ (start_year Scenario.config_Q ≤ 2026)%Z
  ∧ ∃ row,
      _build_annual_summary Variants.one_row Scenario.config_Q
        !! Z.to_nat (2026 - start_year Scenario.config_Q) = Some row
      ∧ Year row = 2026%Z
      ∧ Avg_monthly_FTE row
        = round1 (_steady_state Variants.one_row Scenario.config_Q).1.1
      ∧ Min_monthly_FTE row
        = round1 (_steady_state Variants.one_row Scenario.config_Q).1.2
      ∧ Max_monthly_FTE row
        = round1 (_steady_state Variants.one_row Scenario.config_Q).2.
Proof.
  assert ((2026%Z = end_year Scenario.config_Q
           ∧ of_year Variants.one_row 2026 ≠ [])
          ∨ (2026%Z = (end_year Scenario.config_Q - 1)%Z
             ∧ of_year Variants.one_row (end_year Scenario.config_Q) = []
             ∧ of_year Variants.one_row 2026 ≠ [])) as Hy
    by (left; split; [reflexivity|discriminate]).
  split; [exact Hy|]. split; [simpl; lia|].
  apply (steady_state_is_annual_row Variants.one_row Scenario.config_Q 2026
           Hy). simpl. lia.
Defined.

Lemma expected_cost_bounds_witness :
  (∀ s sp, stages (Scenario.archetype (num:=Q)) !! s = Some sp →
           (0 <= cost_millions sp)%Q)
  ∧ pipeline_stages Scenario.config_Q !! 0%nat = Some "Early"
  ∧ stages (Scenario.archetype (num:=Q)) !! "Early" = Some Scenario.early
  ∧ let E := _expected_cost_from_stage (Scenario.archetype (num:=Q))
               (pipeline_stages Scenario.config_Q)
               (stage_conversion_rates Scenario.config_Q) in
    let conv := default 0%Q
                  (stage_conversion_rates Scenario.config_Q !! "Early") in
    (0 <= E 0%nat)%Q
    ∧ (cost_millions (Scenario.early (num:=Q)) <= E 0%nat)%Q
    ∧ (length (pipeline_stages Scenario.config_Q) = 1%nat ∨ (conv <= 0)%Q
       ∨ (∃ s', pipeline_stages Scenario.config_Q !! 1%nat = Some s'
                ∧ stages (Scenario.archetype (num:=Q)) !! s' = None) →
       (E 0%nat == cost_millions (Scenario.early (num:=Q)))%Q)
    ∧ (∀ s', pipeline_stages Scenario.config_Q !! 1%nat = Some s' →
         (0 < conv)%Q →
         (E 0%nat
          == cost_millions (Scenario.early (num:=Q)) + conv * E 1%nat)%Q).
Proof.
  assert (∀ s sp, stages (Scenario.archetype (num:=Q)) !! s = Some sp →
                  (0 <= cost_millions sp)%Q) as Hcost.
  { intros s sp. unfold Scenario.archetype. simpl.
    intros [[_ <-]|[_ [[_ <-]|[_ Hs]]%lookup_insert_Some]]%lookup_insert_Some;
      [by vm_compute | by vm_compute | by rewrite lookup_empty in Hs]. }
  assert (stages (Scenario.archetype (num:=Q)) !! "Early"
          = Some Scenario.early) as H1 by (by vm_compute).
  split; [exact Hcost|]. split; [reflexivity|]. split; [exact H1|].
  exact (expected_cost_bounds Scenario.archetype
           (pipeline_stages Scenario.config_Q)
           (stage_conversion_rates Scenario.config_Q) 0 "Early" Scenario.early
           Hcost eq_refl H1).
Defined.

Lemma projects_per_year_nonneg_witness :
  (0 <= total_budget_m Scenario.config_Q)%Q
  ∧ (overhead_pct Scenario.config_Q <= 1)%Q
  ∧ ∃ p, _projects_per_year Scenario.config_Q = Ok p ∧ (0 <= p)%Q.
Proof.
  assert ((0 <= total_budget_m Scenario.config_Q)%Q) as H1 by (by vm_compute).
  assert ((overhead_pct Scenario.config_Q <= 1)%Q) as H2 by (by vm_compute).
  split; [exact H1|]. split; [exact H2|].
  exact (projects_per_year_nonneg Scenario.config_Q H1 H2).
Defined.

Lemma month_index_covers_pipeline_witness :
  NoDup (pipeline_stages Scenario.config_Q)
  ∧ Scenario.archetype ∈ archetypes Scenario.config_Q
  ∧ ∃ idx,
      month_index Scenario.config_Q = Ok idx
      ∧ idx = range (12 * start_year Scenario.config_Q)
                (12 * end_year Scenario.config_Q + 12
                 + tail_months_of Scenario.config_Q)
      ∧ (0 ≤ tail_months_of Scenario.config_Q)%Z
      ∧ ∀ m d,
          (12 * start_year Scenario.config_Q ≤ m
           < 12 * end_year Scenario.config_Q + 12)%Z →
          (0 ≤ d ≤ pipeline_duration Scenario.config_Q Scenario.archetype)%Z →
          (m + d)%Z ∈ idx.
Proof.
  assert (NoDup (pipeline_stages Scenario.config_Q)) as Hnd
    by (apply (bool_decide_unpack _); by vm_compute).
  split; [exact Hnd|]. split; [apply list_elem_of_here|].
  exact (month_index_covers_pipeline Scenario.config_Q Scenario.archetype Hnd
           (list_elem_of_here _ _)).
Defined.

(** * The engine leaves the configuration as it finds it *)

Section StoreFacts.
Context {num : Type} `{PyNum num}.
Local Open Scope py_scope.






















End StoreFacts.

Section StoreRuns.
Context {num : Type} `{PyNum num}.
Local Open Scope py_scope.


(** The statement is about the engine, not about every program on the
    store: the interface's [_sync_archetypes] changes the configuration it
    is given when an archetype lacks a stage. *)
Lemma sync_archetypes_st_writes (cfg : ModelConfig num) (k : nat)
    (arch : Archetype num) (sname : string) :
  archetypes cfg !! k = Some arch → sname ∈ pipeline_stages cfg →
  stages arch !! sname = None →
  (_sync_archetypes_st cfg).2 ≠ cfg.
Proof.
  intros Hk Hs Hnone Heq. unfold _sync_archetypes_st, assign in Heq.
  simpl in Heq.
  assert (stages <$> (archetypes (_sync_archetypes cfg) !! k)
          = Some (stages arch)) as Hst by (by rewrite Heq, Hk).
  simpl in Hst. rewrite list_lookup_fmap, Hk in Hst. simpl in Hst.
  injection Hst as Hst.
  apply (f_equal (λ m, m !! sname)) in Hst.
  rewrite sync_stages_lookup, bool_decide_eq_true_2, Hnone in Hst by done.
  done.
Qed.

End StoreRuns.
